(** * onvif-ai: the alert throttle, webhook delivery, event classification,
      notification parsing and the poll loop, embedded in Rocq.

    Source files embedded here:
    - [alert.service.ts]  (class [AlertService])
    - [event.service.ts]  (class [EventService])
    - [onvif.service.ts]  (class [ONVIFService])
    - [logger.ts]         (class [Logger], for what its calls throw)
    - the main application class [ONVIFApp]: how it is built, started and
      stopped, and how it hands events to the alert service

    Conventions of the embedding.
    - JavaScript numbers that hold millisecond clock readings, counters and
      integer settings (every setting is read with [parseInt]) are [Z].  A
      variable that is set but does not begin with a number is read as
      NaN, which has no counterpart in [Z]: the settings of this
      development are numbers.
    - JavaScript strings are [string]; [toLowerCase] acts on the letters
      [A-Z], which is what it does on the ASCII topics a camera sends.
    - [Date.now()], [Math.random()], the webhook endpoint, the camera and
      the registered listeners are the environment: each is an explicit
      argument of the function that consults it.
    - Mutable fields of a class instance are the fields of a record that is
      threaded through the calls. *)

From Stdlib Require Import ZArith Lia Bool List Ascii String.
From stdpp Require Import base gmap strings list fin_maps.

Local Open Scope string_scope.
Local Open Scope Z_scope.

(* Appending to a string that begins with a known character computes. *)
#[local] Arguments String.append !_ _ / : simpl nomatch.

(* ===================================================================== *)
(** * Strings as the source uses them                                     *)
(* ===================================================================== *)

Module JS.

(** [String.prototype.toLowerCase] on one code unit. *)
Definition lowerChar (c : ascii) : ascii :=
  let n := nat_of_ascii c in
  if ((65 <=? n)%nat && (n <=? 90)%nat)%bool then ascii_of_nat (n + 32) else c.

Fixpoint toLowerCase (s : string) : string :=
  match s with
  | EmptyString => EmptyString
  | String c s' => String (lowerChar c) (toLowerCase s')
  end.

(** What is left of [s] after its prefix [p], when [p] is a prefix. *)
Fixpoint stripPrefix (p s : string) : option string :=
  match p, s with
  | EmptyString, _ => Some s
  | String a p', String b s' => if Ascii.eqb a b then stripPrefix p' s' else None
  | String _ _, EmptyString => None
  end.

(** [s.startsWith(p)]. *)
Definition startsWith (p s : string) : bool :=
  match stripPrefix p s with Some _ => true | None => false end.

(** [s.includes(p)]. *)
Fixpoint includes (p s : string) : bool :=
  if startsWith p s then true
  else match s with
       | EmptyString => false
       | String _ s' => includes p s'
       end.

(** [s.split('/')]: the pieces between separators, never an empty list. *)
Fixpoint split (sep : ascii) (s : string) : list string :=
  match s with
  | EmptyString => [EmptyString]
  | String c s' =>
      if Ascii.eqb c sep then EmptyString :: split sep s'
      else match split sep s' with
           | [] => [String c EmptyString]
           | p :: ps => String c p :: ps
           end
  end.

(** The character class [[a-z0-9]]. *)
Definition isLowerAlnum (c : ascii) : bool :=
  let n := nat_of_ascii c in
  (((97 <=? n)%nat && (n <=? 122)%nat) || ((48 <=? n)%nat && (n <=? 57)%nat))%bool.

(** [s.replace(/[^a-z0-9]/g, '_')]: the pattern matches one character, so
    each offending character is replaced on its own. *)
Fixpoint replaceNonAlnum (s : string) : string :=
  match s with
  | EmptyString => EmptyString
  | String c s' =>
      String (if isLowerAlnum c then c else "_"%char) (replaceNonAlnum s')
  end.

(** First occurrence of the literal [p] in [s]: the text before it and the
    text after it. *)
Fixpoint cut (p s : string) : option (string * string) :=
  match stripPrefix p s with
  | Some rest => Some (EmptyString, rest)
  | None =>
      match s with
      | EmptyString => None
      | String c s' =>
          match cut p s' with
          | Some (before, after) => Some (String c before, after)
          | None => None
          end
      end
  end.

(** Line terminators, which [.] does not match. *)
Definition isLineTerminator (c : ascii) : bool :=
  (Ascii.eqb c "010"%char || Ascii.eqb c "013"%char)%bool.

Fixpoint hasLineTerminator (s : string) : bool :=
  match s with
  | EmptyString => false
  | String c s' => (isLineTerminator c || hasLineTerminator s')%bool
  end.

(** The double quote character, as a string. *)
Definition dquote : string := String (ascii_of_nat 34) EmptyString.

(** The first character of [p] occurs in [p] only there: no occurrence of
    [p] can then begin inside another. *)
Definition headOnce (p : string) : bool :=
  match p with
  | EmptyString => false
  | String c p' => negb (includes (String c EmptyString) p')
  end.

(** The characters an event type is made of: [[a-z0-9]] and the
    underscore that stands in for every other character. *)
Definition isTypeChar (c : ascii) : bool :=
  (isLowerAlnum c || Ascii.eqb c "_"%char)%bool.

Fixpoint allChars (P : ascii -> bool) (s : string) : bool :=
  match s with
  | EmptyString => true
  | String c s' => (P c && allChars P s')%bool
  end.

End JS.

(* ===================================================================== *)
(** * The record both services exchange                                   *)
(* ===================================================================== *)

(** [`${Date.now()}-${Math.random().toString(36).substr(2, 9)}`]: the clock
    reading and the random suffix the template string is built from.  The
    suffix is made of [[0-9a-z]], so two ids are the same string exactly
    when both components agree. *)
Record EventId := { id_time : Z; id_suffix : string }.

(** [new Date(utcTime)] where [utcTime] is the scraped attribute, with
    whether it parses as a date (otherwise the object is an Invalid Date);
    or the date of the clock reading taken when the event is built. *)
Inductive Timestamp :=
| DateOf (utcTime : string) (valid : bool)
| DateAt (now : Z).

(** [timestamp.toISOString()] throws a RangeError on an Invalid Date. *)
Definition toISOStringThrows (timestamp : Timestamp) : bool :=
  match timestamp with
  | DateOf _ valid => negb valid
  | DateAt _ => false
  end.

(** An element of what [pullMessages] resolves to (typed [any] in the
    source): the fields [processPolledEvent] reads. *)
Record PolledEvent := {
  p_topic : option string;
  p_source : option string;
  p_key : option string
}.

Inductive Raw :=
| RawXml (messageXml : string)
| RawPolled (event : PolledEvent).

(** [ProcessedEvent]; its [data] field, the scraped items of the message,
    is read by no function embedded here and is left out. *)
Record ProcessedEvent := {
  id : EventId;
  timestamp : Timestamp;
  topic : string;
  source : string;
  type : string;
  raw : Raw
}.

(* ===================================================================== *)
(** * logger.ts                                                           *)
(* ===================================================================== *)

Module Logger.

Inductive LogLevel := debug | info | warn | error.

(** [this.levels] *)
Definition levels (level : LogLevel) : nat :=
  match level with
  | debug => 0
  | info => 1
  | warn => 2
  | error => 3
  end.

(** [shouldLog]; the configured level is read from LOG_LEVEL unchecked,
    and when it is none of the four ([None]) the comparison is with
    [undefined] and nothing is logged. *)
Definition shouldLog (configLevel : option LogLevel) (level : LogLevel) : bool :=
  match configLevel with
  | Some c => (levels c <=? levels level)%nat
  | None => false
  end.

(** A value handed to the logger after the message, as far as
    [formatMessage] goes: [JSON.stringify] returns on it (as it does on
    an [Error] and on every plain object, and a value that is not an
    object is not handed to it), or throws a value of its own: a
    TypeError on a circular structure or on a BigInt inside, or what a
    [toJSON] method throws. *)
Inductive Value :=
| Serialisable
| Unserialisable (thrown : Value).

(** [debug], [info], [warn] and [error] called with a message and one
    value: what the call throws, if it throws.  [formatMessage] runs only
    when the level is logged. *)
Definition log (configLevel : option LogLevel) (level : LogLevel) (value : Value)
    : option Value :=
  if shouldLog configLevel level
  then match value with
       | Serialisable => None
       | Unserialisable thrown => Some thrown
       end
  else None.

End Logger.

(* ===================================================================== *)
(** * alert.service.ts                                                    *)
(* ===================================================================== *)

Module AlertService.

(** The throttling settings, as numbers.  ([getEnvNumber] hands on the
    NaN that [parseInt] gives for a variable it cannot read; a comparison
    with NaN is false, so that such a setting switches its check off.  It
    is not a value of this record.) *)
Record ThrottlingConfig := {
  thr_enabled : bool;
  windowMs : Z;
  maxAlertsPerWindow : Z;
  debounceMs : Z
}.

Record AlertConfig := {
  enabled : bool;
  webhookUrl : string;
  timeout : Z;
  retryAttempts : Z;
  retryDelay : Z;
  throttling : ThrottlingConfig
}.

(** [debounceTimer] holds the delay [setTimeout] was called with when the
    last timer of the record was set.  The callback of a timer logs and
    deletes the field when it runs; the record does not follow that, and
    [getThrottleStatus], which reads the field, is told whether it has
    happened. *)
Record ThrottleRecord := {
  count : Z;
  windowStart : Z;
  lastEventTime : Z;
  debounceTimer : option Z
}.

Inductive Emitted :=
| alertSent (event : ProcessedEvent)
| alertFailed (event : ProcessedEvent).

Record t := {
  config : AlertConfig;
  alertCounter : Z;
  isEnabled : bool;
  throttleMap : gmap string ThrottleRecord;
  emitted : list Emitted
}.

(** [shouldSendAlert]: the record is fetched or created, then its fields
    are assigned in place; [now] is the [Date.now()] reading.  The map
    returned holds the record as the call leaves it. *)
Definition shouldSendAlert (throttleConfig : ThrottlingConfig) (now : Z)
    (eventType : string) (throttleMap : gmap string ThrottleRecord)
    : bool * gmap string ThrottleRecord :=
  let record :=
    match throttleMap !! eventType with
    | Some r => r
    | None => {| count := 0; windowStart := now; lastEventTime := 0;
                 debounceTimer := None |}
    end in
  let record :=
    if now - windowStart record >=? windowMs throttleConfig
    then {| count := 0; windowStart := now;
            lastEventTime := lastEventTime record;
            debounceTimer := debounceTimer record |}
    else record in
  if count record >=? maxAlertsPerWindow throttleConfig
  then (false, <[eventType := record]> throttleMap)
  else
    let timeSinceLastAlert := now - lastEventTime record in
    if ((lastEventTime record >? 0)
        && (timeSinceLastAlert <? debounceMs throttleConfig))%bool
    then (false,
          <[eventType :=
              {| count := count record; windowStart := windowStart record;
                 lastEventTime := lastEventTime record;
                 debounceTimer :=
                   Some (debounceMs throttleConfig - timeSinceLastAlert) |}]>
            throttleMap)
    else (true,
          <[eventType :=
              {| count := count record + 1; windowStart := windowStart record;
                 lastEventTime := now;
                 debounceTimer := debounceTimer record |}]>
            throttleMap).

(** What one [fetch] attempt comes to: a response with its status, or a
    rejected promise (network error, or the [AbortSignal.timeout]). *)
Inductive FetchResult :=
| Response (status : Z)
| Rejected.

(** [response.ok] *)
Definition ok (status : Z) : bool := ((200 <=? status) && (status <=? 299))%bool.

Record WebhookRun := {
  delivered : bool;          (* [false]: the final [throw] was reached *)
  calls : list nat;          (* attempt numbers for which [fetch] ran *)
  delays : nat               (* how many times [delay(retryDelay)] ran *)
}.

(** The [for] loop of [sendWebhook], entered with [attempt] and [n]
    iterations still allowed by [attempt <= retryAttempts]. *)
Fixpoint sendWebhookFrom (fetch : nat -> FetchResult) (retryAttempts : Z)
    (n : nat) (attempt : nat) : WebhookRun :=
  match n with
  | O => {| delivered := false; calls := []; delays := 0 |}
  | S n' =>
      let succeeded :=
        match fetch attempt with
        | Response status => ok status
        | Rejected => false
        end in
      if succeeded
      then {| delivered := true; calls := [attempt]; delays := 0 |}
      else
        let rest := sendWebhookFrom fetch retryAttempts n' (S attempt) in
        {| delivered := delivered rest;
           calls := attempt :: calls rest;
           delays := (if Z.of_nat attempt <? retryAttempts then 1 else 0)
                     + delays rest |}
  end.

Definition sendWebhook (cfg : AlertConfig) (fetch : nat -> FetchResult) : WebhookRun :=
  sendWebhookFrom fetch (retryAttempts cfg) (Z.to_nat (retryAttempts cfg)) 1.

(** [sendAlert] up to its [await]: the checks, the throttle and
    [createAlertPayload] run without interruption; the flag says that
    [sendWebhook] is entered.  The app registers no listener on the alert
    service, so its own [emit] calls return normally. *)
Definition sendAlertBegin (s : t) (now : Z) (event : ProcessedEvent) : t * bool :=
  if negb (isEnabled s) then (s, false)
  else if String.eqb (webhookUrl (config s)) EmptyString then (s, false)
  else
    let '(allowed, throttleMap') :=
      if thr_enabled (throttling (config s))
      then shouldSendAlert (throttling (config s)) now (type event) (throttleMap s)
      else (true, throttleMap s) in
    let s := {| config := config s; alertCounter := alertCounter s;
                isEnabled := isEnabled s; throttleMap := throttleMap';
                emitted := emitted s |} in
    if negb allowed then (s, false)
    else if toISOStringThrows (timestamp event)
    then (* [createAlertPayload] throws inside the [try] *)
         ({| config := config s; alertCounter := alertCounter s;
             isEnabled := isEnabled s; throttleMap := throttleMap s;
             emitted := emitted s ++ [alertFailed event] |}, false)
    else (s, true).

(** [sendAlert] from the point where the awaited [sendWebhook] settles. *)
Definition sendAlertEnd (s : t) (run : WebhookRun) (event : ProcessedEvent) : t :=
  if delivered run
  then {| config := config s; alertCounter := alertCounter s + 1;
          isEnabled := isEnabled s; throttleMap := throttleMap s;
          emitted := emitted s ++ [alertSent event] |}
  else {| config := config s; alertCounter := alertCounter s;
          isEnabled := isEnabled s; throttleMap := throttleMap s;
          emitted := emitted s ++ [alertFailed event] |}.

(** One call of [sendAlert] run from its call to its return, with the
    webhook run it started, if it got that far. *)
Definition sendAlert (s : t) (now : Z) (fetch : nat -> FetchResult)
    (event : ProcessedEvent) : t * option WebhookRun :=
  let '(s, entered) := sendAlertBegin s now event in
  if entered
  then (sendAlertEnd s (sendWebhook (config s) fetch) event,
        Some (sendWebhook (config s) fetch))
  else (s, None).

(** The app's [handleEvent] called for one event after the other; each
    call comes with the clock reading and with what the webhook does
    during it.  ([sendAlert] reaches its first [await] only after the
    throttle has decided, so the decisions are taken in this order also
    when deliveries overlap.) *)
Fixpoint dispatch (s : t) (batch : list (Z * (nat -> FetchResult) * ProcessedEvent)) : t :=
  match batch with
  | [] => s
  | (now, fetch, event) :: rest => dispatch (fst (sendAlert s now fetch event)) rest
  end.

(** Whether [sendAlert] gets as far as the webhook with an event: the
    service is enabled, has a webhook URL, the throttle admits the event
    and the alert payload can be built. *)
Definition passes (s : t) (now : Z) (event : ProcessedEvent) : bool :=
  isEnabled s
  && negb (String.eqb (webhookUrl (config s)) EmptyString)
  && (if thr_enabled (throttling (config s))
      then fst (shouldSendAlert (throttling (config s)) now (type event) (throttleMap s))
      else true)
  && negb (toISOStringThrows (timestamp event)).

(** An attempt that does not end the loop: a non-2xx response or a
    rejected [fetch]. *)
Definition failedAttempt (r : FetchResult) : Prop :=
  match r with
  | Response status => ok status = false
  | Rejected => True
  end.

(** ** The rest of the class *)

(** [enable], [disable], [isAlertEnabled]. *)
Definition enable (s : t) : t :=
  {| config := config s; alertCounter := alertCounter s; isEnabled := true;
     throttleMap := throttleMap s; emitted := emitted s |}.

Definition disable (s : t) : t :=
  {| config := config s; alertCounter := alertCounter s; isEnabled := false;
     throttleMap := throttleMap s; emitted := emitted s |}.

Definition isAlertEnabled (s : t) : bool := isEnabled s.

(** [clearThrottleRecords]: the pending timers are cleared with their
    records. *)
Definition clearThrottleRecords (s : t) : t :=
  {| config := config s; alertCounter := alertCounter s; isEnabled := isEnabled s;
     throttleMap := ∅; emitted := emitted s |}.




Inductive Severity := low | medium | high | critical.

(** [determineSeverity]: the [switch] on the lowercased type. *)
Definition determineSeverity (eventType : string) : Severity :=
  let t := JS.toLowerCase eventType in
  if String.eqb t "peopledetection" then high
  else if (String.eqb t "tamper" || String.eqb t "tampering")%bool then critical
  else if (String.eqb t "motionalarm" || String.eqb t "motion")%bool then medium
  else if String.eqb t "objectdetection" then medium
  else if String.eqb t "device" then low
  else medium.

(** [testWebhook]: [None] when it throws for want of a URL, else whether
    the test payload was delivered; the service is not changed. *)
Definition testWebhook (s : t) (fetch : nat -> FetchResult) : option bool :=
  if String.eqb (webhookUrl (config s)) EmptyString then None
  else Some (delivered (sendWebhook (config s) fetch)).

(** How many of the invocations are [alertSent]. *)
Definition sentCount (l : list Emitted) : Z :=
  Z.of_nat (length (List.filter
                      (fun e => match e with alertSent _ => true | alertFailed _ => false end)
                      l)).

(** An attempt answered with a 2xx status. *)
Definition succeeds (r : FetchResult) : bool :=
  match r with
  | Response status => ok status
  | Rejected => false
  end.

End AlertService.

(* ===================================================================== *)
(** * event.service.ts                                                    *)
(* ===================================================================== *)

Module EventService.

Record PollingConfig := {
  pullInterval : Z;
  messageLimit : Z;
  timeout : string;
  retryOnError : bool;
  maxRetries : Z
}.

(** Calls made on [onvifService]. *)
Inductive GatewayCall :=
| pullMessages
| createPullPoint.

(** The environment of the service: the clock and random source read when
    an event is built (indexed by the position of the event in its batch),
    whether delivering an event on a channel ends in an exception (a
    listener throws, or the channel is ['error'] and has no listener) and
    with what value, the JSON text of the [SimpleItem] pairs scraped from
    a block, and the level of the logger the service was built with.  The
    regular expressions of that scraping have no part in how many events a
    payload gives, nor in their ids, topics and types. *)
Record Env := {
  now : nat -> Z;
  random : nat -> string;
  listenerThrows : string -> ProcessedEvent -> bool;
  sourceItems : string -> string;
  (* whether [new Date(utcTime)] is a valid date *)
  parsesAsDate : string -> bool;
  (* the value thrown where [listenerThrows] says that one is *)
  thrown : string -> ProcessedEvent -> Logger.Value;
  (* [config.logger]'s level *)
  logLevel : option Logger.LogLevel
}.

Record t := {
  polling : option PollingConfig;
  isRunning : bool;
  eventCounter : Z;
  retryCount : Z;
  subscriptionActive : bool;
  (* the processed events [emit] was called with, oldest first *)
  emitted : list (string * ProcessedEvent);
  (* the calls made on the camera, oldest first *)
  gateway : list GatewayCall;
  (* [pollForEvents] invocations suspended at [await pullMessages] *)
  inFlight : nat
}.

(** ** [extractEventType] *)

Definition extractEventType (topic : string) : string :=
  if String.eqb topic EmptyString then "unknown"
  else
    let parts := JS.split "/" topic in
    if (2 <=? length parts)%nat then
      let lastPart := List.last parts EmptyString in
      if (JS.includes "people" (JS.toLowerCase lastPart)
          || JS.includes "human" (JS.toLowerCase lastPart)
          || JS.includes "person" (JS.toLowerCase lastPart))%bool
      then "peopledetection"
      else if (JS.includes "object" (JS.toLowerCase lastPart)
               && JS.includes "analytics" (JS.toLowerCase topic))%bool
      then "objectdetection"
      else JS.replaceNonAlnum (JS.toLowerCase lastPart)
    else JS.replaceNonAlnum (JS.toLowerCase topic).

(** ** [parseEventXml] *)

Definition openTag : string := "<wsnt:NotificationMessage>".
Definition closeTag : string := "</wsnt:NotificationMessage>".

(** [xmlBody.match(/<wsnt:NotificationMessage>[\s\S]*?<\/wsnt:NotificationMessage>/g)]:
    the leftmost opening tag, the nearest closing tag after it, and on
    from behind that closing tag.  With no closing tag behind the first
    opening tag there is none behind a later one either. *)
Fixpoint matchNotificationMessages (fuel : nat) (xmlBody : string) : list string :=
  match fuel with
  | O => []
  | S fuel' =>
      match JS.cut openTag xmlBody with
      | None => []
      | Some (_, afterOpen) =>
          match JS.cut closeTag afterOpen with
          | None => []
          | Some (inner, rest) =>
              (openTag +:+ inner +:+ closeTag)
                :: matchNotificationMessages fuel' rest
          end
      end
  end.

Definition notificationMessages (xmlBody : string) : list string :=
  matchNotificationMessages (String.length xmlBody) xmlBody.

(** [messageXml.match(/<wsnt:Topic[^>]*>(.*?)<\/wsnt:Topic>/)], group 1.
    [[^>]*>] ends at the first [>]; [(.*?)] then runs to the nearest
    closing tag and fails on a line terminator, in which case the next
    occurrence of [<wsnt:Topic] is tried. *)
Fixpoint matchTopic (fuel : nat) (messageXml : string) : option string :=
  match fuel with
  | O => None
  | S fuel' =>
      match JS.cut "<wsnt:Topic" messageXml with
      | None => None
      | Some (_, afterName) =>
          match JS.cut ">" afterName with
          | None => None
          | Some (_, afterTag) =>
              match JS.cut "</wsnt:Topic>" afterTag with
              | None => None
              | Some (inner, _) =>
                  if JS.hasLineTerminator inner
                  then matchTopic fuel' afterName
                  else Some inner
              end
          end
      end
  end.

(** The first group of the [UtcTime] pattern: the attribute name with its
    equals sign and opening quote, then everything up to the next quote. *)
Definition matchUtcTime (messageXml : string) : option string :=
  match JS.cut ("UtcTime=" +:+ JS.dquote) messageXml with
  | None => None
  | Some (_, afterQuote) =>
      match JS.cut JS.dquote afterQuote with
      | None => None
      | Some (value, _) => Some value
      end
  end.

(** The body of the [for] loop of [parseEventXml], for the block at
    position [k] of the payload.  ([PropertyOperation] is scraped for the
    debug log only.) *)
Definition parseNotificationMessage (env : Env) (k : nat) (messageXml : string)
    : ProcessedEvent :=
  let eventId := {| id_time := now env k; id_suffix := random env k |} in
  let topic :=
    match matchTopic (String.length messageXml) messageXml with
    | Some t => t
    | None => "unknown"
    end in
  let utcTime :=
    match matchUtcTime messageXml with
    | Some u => DateOf u (parsesAsDate env u)
    | None => DateAt (now env k)
    end in
  {| id := eventId; timestamp := utcTime; topic := topic;
     source := sourceItems env messageXml;
     type := extractEventType topic;
     raw := RawXml messageXml |}.

Definition parseEventXml (env : Env) (xmlBody : string) : list ProcessedEvent :=
  imap (parseNotificationMessage env) (notificationMessages xmlBody).

(** ** [processPolledEvent] *)

Definition extractPolledEventSource (event : PolledEvent) : string :=
  match p_source event with
  | Some s => if String.eqb s EmptyString then
                match p_key event with
                | Some k => if String.eqb k EmptyString then "unknown" else k
                | None => "unknown"
                end
              else s
  | None =>
      match p_key event with
      | Some k => if String.eqb k EmptyString then "unknown" else k
      | None => "unknown"
      end
  end.

Definition processPolledEvent (env : Env) (k : nat) (event : PolledEvent)
    : ProcessedEvent :=
  let topic :=
    match p_topic event with
    | Some t => if String.eqb t EmptyString then "unknown" else t
    | None => "unknown"
    end in
  {| id := {| id_time := now env k; id_suffix := random env k |};
     timestamp := DateAt (now env k);
     topic := topic;
     source := extractPolledEventSource event;
     type := extractEventType topic;
     raw := RawPolled event |}.

(** ** Emitting *)

Definition setEventCounter (n : Z) (s : t) : t :=
  {| polling := polling s; isRunning := isRunning s; eventCounter := n;
     retryCount := retryCount s; subscriptionActive := subscriptionActive s;
     emitted := emitted s; gateway := gateway s; inFlight := inFlight s |}.

Definition setRetryCount (n : Z) (s : t) : t :=
  {| polling := polling s; isRunning := isRunning s;
     eventCounter := eventCounter s; retryCount := n;
     subscriptionActive := subscriptionActive s;
     emitted := emitted s; gateway := gateway s; inFlight := inFlight s |}.

Definition setSubscriptionActive (b : bool) (s : t) : t :=
  {| polling := polling s; isRunning := isRunning s;
     eventCounter := eventCounter s; retryCount := retryCount s;
     subscriptionActive := b;
     emitted := emitted s; gateway := gateway s; inFlight := inFlight s |}.

Definition call (c : GatewayCall) (s : t) : t :=
  {| polling := polling s; isRunning := isRunning s;
     eventCounter := eventCounter s; retryCount := retryCount s;
     subscriptionActive := subscriptionActive s;
     emitted := emitted s; gateway := gateway s ++ [c]; inFlight := inFlight s |}.

Definition setInFlight (n : nat) (s : t) : t :=
  {| polling := polling s; isRunning := isRunning s;
     eventCounter := eventCounter s; retryCount := retryCount s;
     subscriptionActive := subscriptionActive s;
     emitted := emitted s; gateway := gateway s; inFlight := n |}.

(** [this.emit(channel, event)], with the value thrown when the call
    threw. *)
Definition emit (env : Env) (channel : string) (event : ProcessedEvent) (s : t)
    : t * option Logger.Value :=
  ({| polling := polling s; isRunning := isRunning s;
      eventCounter := eventCounter s; retryCount := retryCount s;
      subscriptionActive := subscriptionActive s;
      emitted := emitted s ++ [(channel, event)];
      gateway := gateway s; inFlight := inFlight s |},
   if listenerThrows env channel event
   then Some (thrown env channel event) else None).

(** The [for] loop of [processEventNotification], with the value thrown
    when the loop was left by an exception: an [emit] threw, or the
    [toISOString] among the arguments of the closing [logger.info] did (a
    RangeError). *)
Fixpoint notifyAll (env : Env) (processedEvents : list ProcessedEvent) (s : t)
    : t * option Logger.Value :=
  match processedEvents with
  | [] => (s, None)
  | processedEvent :: rest =>
      let s := setEventCounter (eventCounter s + 1) s in
      let '(s, threw) := emit env "event" processedEvent s in
      match threw with
      | Some error => (s, Some error)
      | None =>
          let '(s, threw) := emit env (type processedEvent) processedEvent s in
          match threw with
          | Some error => (s, Some error)
          | None =>
              if toISOStringThrows (timestamp processedEvent)
              then (s, Some Logger.Serialisable)
              else notifyAll env rest s
          end
      end
  end.

(** ** The push receiver *)

(** [processEventNotification]: its [catch] hands the exception to
    [logger.error]; what that call throws leaves the method. *)
Definition processEventNotification (env : Env) (xmlBody : string) (s : t)
    : t * option Logger.Value :=
  let '(s, threw) := notifyAll env (parseEventXml env xmlBody) s in
  match threw with
  | Some error => (s, Logger.log (logLevel env) Logger.error error)
  | None => (s, None)
  end.

(** A request as the handler sees it: [req.method], the [pathname] that
    [parse(req.url || '', true)] gives, and the chunks joined at ['end']. *)
Record IncomingMessage := {
  method : string;
  pathname : option string;
  body : string
}.

Record ServerResponse := {
  statusCode : Z;
  contentType : option string;
  payload : string
}.

Definition emptyEnvelope : string :=
  "<?xml version=" +:+ JS.dquote +:+ "1.0" +:+ JS.dquote
  +:+ " encoding=" +:+ JS.dquote +:+ "UTF-8" +:+ JS.dquote
  +:+ "?><soap:Envelope xmlns:soap=" +:+ JS.dquote
  +:+ "http://www.w3.org/2003/05/soap-envelope" +:+ JS.dquote
  +:+ "><soap:Body></soap:Body></soap:Envelope>".

(** [handleHttpRequest]; [writeThrows] says that [res.writeHead(200, ...)]
    or the [res.end] after it threw.  The [catch] of the ['end'] handler
    hands the exception to [logger.error] before it writes the 500: when
    that call throws, the handler is left with no response written. *)
Definition handleHttpRequest (env : Env) (writeThrows : bool)
    (req : IncomingMessage) (s : t) : t * option ServerResponse :=
  if (String.eqb (method req) "POST"
      && match pathname req with
         | Some p => negb (String.eqb p EmptyString) && JS.startsWith "/events/" p
         | None => false
         end)%bool
  then
    let '(s, threw) := processEventNotification env (body req) s in
    match threw with
    | Some error =>
        match Logger.log (logLevel env) Logger.error error with
        | Some _ => (s, None)
        | None => (s, Some {| statusCode := 500; contentType := None;
                              payload := "Internal Server Error" |})
        end
    | None =>
        if writeThrows
        then (s, Some {| statusCode := 500; contentType := None;
                         payload := "Internal Server Error" |})
        else (s, Some {| statusCode := 200; contentType := Some "text/xml";
                         payload := emptyEnvelope |})
    end
  else (s, Some {| statusCode := 404; contentType := None; payload := "Not Found" |}).

(** ** The poll loop *)

(** [createPullPointSubscription]; [created] says that the camera call
    resolved, and the flag returned that the method threw. *)
Definition createPullPointSubscription (created : bool) (s : t) : t * bool :=
  let s := call createPullPoint s in
  if created
  then (setRetryCount 0 (setSubscriptionActive true s), false)
  else
    (setSubscriptionActive false s,
     match polling s with
     | Some p => negb (retryOnError p)
     | None => true
     end).

(** The [for] loop of [pollForEvents], entered at the event of position
    [k], with the value thrown when an [emit] threw, which leaves the
    loop. *)
Fixpoint emitPolled (env : Env) (k : nat) (events : list PolledEvent) (s : t)
    : t * option Logger.Value :=
  match events with
  | [] => (s, None)
  | event :: rest =>
      let processedEvent := processPolledEvent env k event in
      let s := setEventCounter (eventCounter s + 1) s in
      let '(s, threw) := emit env "event" processedEvent s in
      match threw with
      | Some error => (s, Some error)
      | None =>
          let '(s, threw) := emit env (type processedEvent) processedEvent s in
          match threw with
          | Some error => (s, Some error)
          | None => emitPolled env (S k) rest s
          end
      end
  end.

(** What the awaited [pullMessages] comes to. *)
Inductive PullResult :=
| Pulled (events : list PolledEvent)
| PullRejected.

(** [pollForEvents] up to its [await]: [Some] when [pullMessages] was
    called and the invocation is now suspended, [None] when it returned. *)
Definition pollStart (s : t) : option t :=
  match polling s with
  | None => None
  | Some _ =>
      if negb (isRunning s) then None
      else if negb (subscriptionActive s) then None
      else Some (setInFlight (S (inFlight s)) (call pullMessages s))
  end.

(** [pollForEvents] from its [await] on, with the outcome of
    [pullMessages] and, should the subscription be created anew, of that
    call.  What [pullMessages] rejects with is serialisable for the logger
    both services share: it is an [Error] of the ONVIF service, or has
    been through its [logger.error].  What a listener throws need not be,
    and where the [catch] hands it to the logger and the logger throws,
    the invocation ends there (the timer's callback catches what leaves
    it). *)
Definition pollResume (env : Env) (result : PullResult) (created : bool) (s : t) : t :=
  let s := setInFlight (Nat.pred (inFlight s)) s in
  let '(s, threw) :=
    match result with
    | PullRejected => (s, Some Logger.Serialisable)
    | Pulled events =>
        let '(s, threw) := emitPolled env 0 events s in
        match threw with
        | Some error => (s, Some error)
        | None => (setRetryCount 0 s, None)
        end
    end in
  match threw with
  | None => s
  | Some error =>
      match polling s with
      | None => s
      | Some p =>
          if negb (isRunning s) then s
          else
            let s := setRetryCount (retryCount s + 1) s in
            if (retryOnError p && (retryCount s <=? maxRetries p))%bool
            then
              match Logger.log (logLevel env) Logger.warn error with
              | Some _ => s
              | None =>
                  if retryCount s >=? maxRetries p
                  then
                    let '(s, threw) := createPullPointSubscription created s in
                    if threw then setSubscriptionActive false s else s
                  else s
              end
            else
              match Logger.log (logLevel env) Logger.error error with
              | Some _ => s
              | None => setSubscriptionActive false s
              end
      end
  end.

(** One invocation of [pollForEvents] run from its call to its return. *)
Definition pollForEvents (env : Env) (result : PullResult) (created : bool) (s : t) : t :=
  match pollStart s with
  | None => s
  | Some s => pollResume env result created s
  end.

(** What the event loop hands to the service in poll mode: the interval
    timer set by [startEventPolling] fires, or an awaited [pullMessages]
    settles and the suspended invocation goes on. *)
Inductive LoopEvent :=
| Tick
| Settled (result : PullResult) (created : bool).

Definition step (env : Env) (s : t) (e : LoopEvent) : t :=
  match e with
  | Tick => match pollStart s with Some s' => s' | None => s end
  | Settled result created =>
      match inFlight s with
      | O => s
      | S _ => pollResume env result created s
      end
  end.

Definition run (env : Env) (es : list LoopEvent) (s : t) : t :=
  fold_left (step env) es s.

(** A payload laid out as delimited blocks: text [pre], then for each
    pair the opening tag, the inner text, the closing tag and the text
    that follows the block. *)
Fixpoint envelope (blocks : list (string * string)) : string :=
  match blocks with
  | [] => EmptyString
  | (inner, sep) :: rest =>
      openTag +:+ inner +:+ closeTag +:+ sep +:+ envelope rest
  end.

(** Whether handing the polled events, from position [k] on, to the
    listeners ends in an exception. *)
Fixpoint throwsOn (env : Env) (k : nat) (events : list PolledEvent) : bool :=
  match events with
  | [] => false
  | event :: rest =>
      listenerThrows env "event" (processPolledEvent env k event)
      || listenerThrows env (type (processPolledEvent env k event))
           (processPolledEvent env k event)
      || throwsOn env (S k) rest
  end.

(** A poll cycle fails when [pullMessages] rejects or a listener throws
    on one of the events pulled. *)
Definition pollFails (env : Env) (result : PullResult) : bool :=
  match result with
  | PullRejected => true
  | Pulled events => throwsOn env 0 events
  end.

(** The value the [catch] of a poll cycle receives, if the cycle fails. *)
Fixpoint thrownOn (env : Env) (k : nat) (events : list PolledEvent)
    : option Logger.Value :=
  match events with
  | [] => None
  | event :: rest =>
      if listenerThrows env "event" (processPolledEvent env k event)
      then Some (thrown env "event" (processPolledEvent env k event))
      else if listenerThrows env (type (processPolledEvent env k event))
                (processPolledEvent env k event)
      then Some (thrown env (type (processPolledEvent env k event))
                   (processPolledEvent env k event))
      else thrownOn env (S k) rest
  end.

Definition pollError (env : Env) (result : PullResult) : option Logger.Value :=
  match result with
  | PullRejected => Some Logger.Serialisable
  | Pulled events => thrownOn env 0 events
  end.

(** The cycle fails and the logger, called at [level] with the error,
    returns. *)
Definition failsLogged (env : Env) (level : Logger.LogLevel) (result : PullResult)
    : bool :=
  match pollError env result with
  | Some error =>
      match Logger.log (logLevel env) level error with
      | Some _ => false
      | None => true
      end
  | None => false
  end.

(** The schedule on which no two cycles overlap: after each tick of the
    timer the [pullMessages] it awaits settles before the next tick. *)
Definition serial (outcomes : list (PullResult * bool)) : list LoopEvent :=
  flat_map (fun o => [Tick; Settled (fst o) (snd o)]) outcomes.

(** The defaults of [camera.config.ts] for polling. *)
Definition defaultPolling : PollingConfig :=
  {| pullInterval := 5000; messageLimit := 10; timeout := "PT10S";
     retryOnError := true; maxRetries := 3 |}.

(** The service in poll mode once [start] has returned. *)
Definition started : t :=
  {| polling := Some defaultPolling; isRunning := true; eventCounter := 0;
     retryCount := 0; subscriptionActive := true; emitted := [];
     gateway := [createPullPoint]; inFlight := 0 |}.

(** An environment with well-behaved listeners. *)
Definition quietEnv : Env :=
  {| now := fun k => 1700000000000 + Z.of_nat k;
     random := fun _ => "k3j9x0q2a";
     listenerThrows := fun _ _ => false;
     sourceItems := fun _ => "{}";
     parsesAsDate := fun _ => true;
     thrown := fun _ _ => Logger.Serialisable;
     logLevel := Some Logger.info |}.

(** The events the loop of [processEventNotification] gets to when no
    listener throws: all up to and including the first whose timestamp is
    an Invalid Date. *)
Fixpoint reached (processedEvents : list ProcessedEvent) : list ProcessedEvent :=
  match processedEvents with
  | [] => []
  | processedEvent :: rest =>
      processedEvent
        :: (if toISOStringThrows (timestamp processedEvent) then [] else reached rest)
  end.

(** The two deliveries of one event: on the channel ['event'] and on
    the channel named by its type. *)
Definition deliveries (e : ProcessedEvent) : list (string * ProcessedEvent) :=
  [("event", e); (type e, e)].

(** The polled events as [processPolledEvent] builds them, the first one
    at position [k]. *)
Fixpoint processedFrom (env : Env) (k : nat) (events : list PolledEvent)
    : list ProcessedEvent :=
  match events with
  | [] => []
  | event :: rest => processPolledEvent env k event :: processedFrom env (S k) rest
  end.

(** How many of the deliveries went to a channel. *)
Definition onChannel (channel : string) (l : list (string * ProcessedEvent)) : nat :=
  length (List.filter (fun d => String.eqb (fst d) channel) l).




End EventService.

(* ===================================================================== *)
(** * Runs of the throttle, and the specification's reading of it         *)
(* ===================================================================== *)

Module Throttle.
Import AlertService.

(** An arrival: the event type and the [Date.now()] reading of the call. *)
Abbreviation Arrival := (string * Z)%type.

(** [shouldSendAlert] called once per arrival, in order: the decisions and
    the map left behind. *)
Fixpoint throttle (cfg : ThrottlingConfig) (arrivals : list Arrival)
    (m : gmap string ThrottleRecord) : list bool * gmap string ThrottleRecord :=
  match arrivals with
  | [] => ([], m)
  | (eventType, now) :: rest =>
      let '(b, m') := shouldSendAlert cfg now eventType m in
      let '(bs, m'') := throttle cfg rest m' in
      (b :: bs, m'')
  end.

Definition decisions (cfg : ThrottlingConfig) (arrivals : list Arrival)
    (m : gmap string ThrottleRecord) : list bool :=
  fst (throttle cfg arrivals m).

(** The arrival times of the admitted events of type [c]. *)
Fixpoint admittedTimes (cfg : ThrottlingConfig) (c : string)
    (arrivals : list Arrival) (m : gmap string ThrottleRecord) : list Z :=
  match arrivals with
  | [] => []
  | (eventType, now) :: rest =>
      let '(b, m') := shouldSendAlert cfg now eventType m in
      if (b && String.eqb eventType c)%bool
      then now :: admittedTimes cfg c rest m'
      else admittedTimes cfg c rest m'
  end.

(** Arrival times in the order a clock gives them. *)
Fixpoint nondecreasing (ts : list Z) : bool :=
  match ts with
  | [] => true
  | t :: rest =>
      match rest with
      | [] => true
      | t' :: _ => (t <=? t') && nondecreasing rest
      end
  end.

(** [t] lies in the interval of length [w] that starts at [a]. *)
Definition within (a w t : Z) : bool := (a <=? t) && (t <? a + w).

Definition countIf (P : Z -> bool) (ts : list Z) : Z :=
  Z.of_nat (length (List.filter P ts)).

Definition countWithin (a w : Z) (ts : list Z) : Z := countIf (within a w) ts.

(** What [shouldSendAlert] does to the record of the event type it is
    called for: the decision and the record afterwards. *)
Definition onRecord (cfg : ThrottlingConfig) (now : Z) (o : option ThrottleRecord)
    : bool * ThrottleRecord :=
  let record :=
    match o with
    | Some r => r
    | None => {| count := 0; windowStart := now; lastEventTime := 0;
                 debounceTimer := None |}
    end in
  let record :=
    if now - windowStart record >=? windowMs cfg
    then {| count := 0; windowStart := now;
            lastEventTime := lastEventTime record;
            debounceTimer := debounceTimer record |}
    else record in
  if count record >=? maxAlertsPerWindow cfg then (false, record)
  else if ((lastEventTime record >? 0)
           && (now - lastEventTime record <? debounceMs cfg))%bool
  then (false,
        {| count := count record; windowStart := windowStart record;
           lastEventTime := lastEventTime record;
           debounceTimer := Some (debounceMs cfg - (now - lastEventTime record)) |})
  else (true,
        {| count := count record + 1; windowStart := windowStart record;
           lastEventTime := now; debounceTimer := debounceTimer record |}).

(** The decisions for arrivals that all concern the record [o]. *)
Fixpoint onRecords (cfg : ThrottlingConfig) (times : list Z)
    (o : option ThrottleRecord) : list bool :=
  match times with
  | [] => []
  | now :: rest =>
      fst (onRecord cfg now o) :: onRecords cfg rest (Some (snd (onRecord cfg now o)))
  end.

(** What holds of a record [r] and of the admitted arrival times [adm]
    of its event type, when no arrival so far is later than [lo]; [a] is
    the start of the rolling interval looked at. *)
Definition windowInv (cfg : ThrottlingConfig) (a : Z)
    (r : ThrottleRecord) (adm : list Z) (lo : Z) : Prop :=
  windowStart r <= lo
  /\ countIf (fun t => windowStart r <=? t) adm = count r
  /\ count r <= maxAlertsPerWindow cfg
  /\ (forall t, In t adm -> t < windowStart r + windowMs cfg)
  /\ countIf (fun t => (windowStart r - windowMs cfg <? t) && (t <? windowStart r)) adm
     <= maxAlertsPerWindow cfg
  /\ countWithin a (windowMs cfg) adm <= 2 * maxAlertsPerWindow cfg.

Definition throttleInv (cfg : ThrottlingConfig) (a : Z)
    (o : option ThrottleRecord) (adm : list Z) (lo : Z) : Prop :=
  match o with
  | Some r => windowInv cfg a r adm lo
  | None => adm = []
  end.

(** The throttle record and the four steps as section 4.4 of the
    specification words them. *)
Module Spec.

Record ThrottleRecord := {
  windowStart : Z;
  countInWindow : Z;
  lastAdmittedTime : Z
}.

Definition evaluate (windowMs maxPerWindow debounceMs : Z) (T : Z)
    (o : option ThrottleRecord) : bool * ThrottleRecord :=
  let r :=
    match o with
    | Some r => r
    | None => {| countInWindow := 0; windowStart := T; lastAdmittedTime := 0 |}
    end in
  (* 1 *)
  let r :=
    if T - windowStart r >=? windowMs
    then {| countInWindow := 0; windowStart := T;
            lastAdmittedTime := lastAdmittedTime r |}
    else r in
  (* 2 *)
  if countInWindow r >=? maxPerWindow then (false, r)
  (* 3 *)
  else if ((lastAdmittedTime r >? 0) && (T - lastAdmittedTime r <? debounceMs))%bool
  then (false, r)
  (* 4 *)
  else (true, {| countInWindow := countInWindow r + 1;
                 windowStart := windowStart r;
                 lastAdmittedTime := T |}).

End Spec.

(** The three fields of the source's record that the specification names. *)
Definition abstract (r : AlertService.ThrottleRecord) : Spec.ThrottleRecord :=
  {| Spec.windowStart := windowStart r;
     Spec.countInWindow := count r;
     Spec.lastAdmittedTime := lastEventTime r |}.

(** The scenario of section 8: one event type, six arrivals a second
    apart, the first at [t0]. *)
Definition scenarioConfig : ThrottlingConfig :=
  {| thr_enabled := true; windowMs := 60000; maxAlertsPerWindow := 5;
     debounceMs := 5000 |}.

Definition scenario (t0 : Z) : list Arrival :=
  [("motionalarm", t0); ("motionalarm", t0 + 1000); ("motionalarm", t0 + 2000);
   ("motionalarm", t0 + 3000); ("motionalarm", t0 + 4000); ("motionalarm", t0 + 5000)].

(** Every record's [count] lies between 0 and the cap. *)
Definition countsInRange (cfg : ThrottlingConfig) (m : gmap string ThrottleRecord)
    : Prop :=
  forall c r, m !! c = Some r -> 0 <= count r <= maxAlertsPerWindow cfg.

(** The arrivals that concern the event type [c]. *)
Definition ofType (c : string) (arrivals : list Arrival) : list Arrival :=
  List.filter (fun e : Arrival => String.eqb (fst e) c) arrivals.

End Throttle.

(* ===================================================================== *)
(** * onvif.service.ts                                                    *)
(* ===================================================================== *)

Module ONVIFService.

(** The methods of the [Cam] object that the service calls. *)
Inductive CamMethod :=
| cam_getDeviceInformation
| cam_getCapabilities
| cam_getStreamUri
| cam_createPullPointSubscription
| cam_pullMessages
| cam_subscribe
| cam_unsubscribe.

(** What the camera calls back with: an error, or a value, which may be
    missing. *)
Inductive Answer (A : Type) :=
| Failed
| Answered (value : option A).

Arguments Failed {A}.
Arguments Answered {A} value.

(** How a method ends: it returns (its promise resolves), or it throws
    (its promise rejects). *)
Inductive Outcome (A : Type) :=
| Returned (value : A)
| Thrown.

Arguments Returned {A} value.
Arguments Thrown {A}.

Record t := {
  camera : bool;              (* [this.camera !== null] *)
  isConnected : bool;
  subscription : bool;        (* [this.subscription !== null] *)
  requests : list CamMethod   (* the calls made on the camera, oldest first *)
}.

(** The service as its constructor leaves it. *)
Definition fresh : t :=
  {| camera := false; isConnected := false; subscription := false; requests := [] |}.

(** [connect]: the [Cam] object is built and assigned; [err] is what its
    callback is called with. *)
Definition connect (err : bool) (s : t) : t * Outcome unit :=
  let s := {| camera := true; isConnected := isConnected s;
              subscription := subscription s; requests := requests s |} in
  if err then (s, Thrown)
  else ({| camera := camera s; isConnected := true;
           subscription := subscription s; requests := requests s |},
        Returned tt).

(** [ensureConnected]: whether it throws. *)
Definition ensureConnected (s : t) : bool :=
  (negb (isConnected s) || negb (camera s))%bool.

Definition request (m : CamMethod) (s : t) : t :=
  {| camera := camera s; isConnected := isConnected s;
     subscription := subscription s; requests := requests s ++ [m] |}.

(** The shape [getDeviceInformation], [getCapabilities], [getStreamUri]
    and [createPullPointSubscription] share: the guard, the promisified
    call, the check that a value came back. *)
Definition ask {A : Type} (m : CamMethod) (answer : Answer A) (s : t)
    : t * Outcome A :=
  if ensureConnected s then (s, Thrown)
  else
    match answer with
    | Answered (Some value) => (request m s, Returned value)
    | Answered None => (request m s, Thrown)
    | Failed => (request m s, Thrown)
    end.

Definition getDeviceInformation {A : Type} (answer : Answer A) (s : t)
    : t * Outcome A :=
  ask cam_getDeviceInformation answer s.

Definition getCapabilities {A : Type} (answer : Answer A) (s : t)
    : t * Outcome A :=
  ask cam_getCapabilities answer s.

Definition getStreamUri {A : Type} (answer : Answer A) (s : t)
    : t * Outcome A :=
  ask cam_getStreamUri answer s.

Definition createPullPointSubscription {A : Type} (answer : Answer A) (s : t)
    : t * Outcome A :=
  ask cam_createPullPointSubscription answer s.

(** [pullMessages]: a missing value counts as no messages. *)
Definition pullMessages {A : Type} (answer : Answer (list A)) (s : t)
    : t * Outcome (list A) :=
  if ensureConnected s then (s, Thrown)
  else
    match answer with
    | Answered (Some messages) => (request cam_pullMessages s, Returned messages)
    | Answered None => (request cam_pullMessages s, Returned [])
    | Failed => (request cam_pullMessages s, Thrown)
    end.

(** [createEventSubscription]: the subscription is kept when one came
    back. *)
Definition createEventSubscription {A : Type} (answer : Answer A) (s : t)
    : t * Outcome A :=
  if ensureConnected s then (s, Thrown)
  else
    match answer with
    | Answered (Some value) =>
        ({| camera := camera s; isConnected := isConnected s;
            subscription := true;
            requests := requests s ++ [cam_subscribe] |},
         Returned value)
    | Answered None => (request cam_subscribe s, Thrown)
    | Failed => (request cam_subscribe s, Thrown)
    end.

(** [unsubscribeFromEvents]; [ok] says that the camera's callback came
    without an error. *)
Definition unsubscribeFromEvents (ok : bool) (s : t) : t * Outcome unit :=
  if ensureConnected s then (s, Thrown)
  else if negb (subscription s) then (s, Returned tt)
  else if ok
  then ({| camera := camera s; isConnected := isConnected s;
           subscription := false;
           requests := requests s ++ [cam_unsubscribe] |},
        Returned tt)
  else (request cam_unsubscribe s, Thrown).

Definition isServiceConnected (s : t) : bool :=
  (isConnected s && camera s)%bool.

(** [disconnect]: what [unsubscribeFromEvents] throws is logged and
    dropped. *)
Definition disconnect (ok : bool) (s : t) : t :=
  let s := if subscription s then fst (unsubscribeFromEvents ok s) else s in
  {| camera := false; isConnected := false;
     subscription := subscription s; requests := requests s |}.

(** The camera called back with a value. *)
Definition answers {A : Type} (answer : Answer A) : bool :=
  match answer with
  | Answered (Some _) => true
  | Answered None => false
  | Failed => false
  end.

Definition returned {A : Type} (outcome : Outcome A) : bool :=
  match outcome with
  | Returned _ => true
  | Thrown => false
  end.

End ONVIFService.

(* ===================================================================== *)
(** * event.service.ts: starting and stopping                             *)
(* ===================================================================== *)

Module EventServiceLifecycle.
Import ONVIFService.

(** [config.method] *)
Inductive Method := Polling | Push.

(** The service with the ONVIF service it was built on, its mode, and
    the two handles that [start] sets and [cleanup] clears. *)
Record t := {
  service : EventService.t;
  onvifService : ONVIFService.t;
  method : Method;
  push : bool;           (* [config.push] is present *)
  httpServer : bool;     (* [this.httpServer !== null] *)
  pullTimer : bool       (* [this.pullTimer !== null] *)
}.

Definition setIsRunning (b : bool) (s : EventService.t) : EventService.t :=
  {| EventService.polling := EventService.polling s;
     EventService.isRunning := b;
     EventService.eventCounter := EventService.eventCounter s;
     EventService.retryCount := EventService.retryCount s;
     EventService.subscriptionActive := EventService.subscriptionActive s;
     EventService.emitted := EventService.emitted s;
     EventService.gateway := EventService.gateway s;
     EventService.inFlight := EventService.inFlight s |}.

Definition setService (svc : EventService.t) (s : t) : t :=
  {| service := svc; onvifService := onvifService s; method := method s;
     push := push s; httpServer := httpServer s; pullTimer := pullTimer s |}.

Definition setOnvifService (onvif : ONVIFService.t) (s : t) : t :=
  {| service := service s; onvifService := onvif; method := method s;
     push := push s; httpServer := httpServer s; pullTimer := pullTimer s |}.

Definition setHttpServer (b : bool) (s : t) : t :=
  {| service := service s; onvifService := onvifService s; method := method s;
     push := push s; httpServer := b; pullTimer := pullTimer s |}.

Definition setPullTimer (b : bool) (s : t) : t :=
  {| service := service s; onvifService := onvifService s; method := method s;
     push := push s; httpServer := httpServer s; pullTimer := b |}.

(** [startHttpServer]: the server is created and assigned, then asked to
    listen; [listens] says that it came to listen rather than to an
    ['error'] event. *)
Definition startHttpServer (listens : bool) (s : t) : t * Outcome unit :=
  if negb (push s) then (s, Returned tt)
  else if listens then (setHttpServer true s, Returned tt)
  else (setHttpServer true s, Thrown).

Definition startPushMethod {A : Type} (listens : bool) (answer : Answer A) (s : t)
    : t * Outcome unit :=
  if negb (push s) then (s, Thrown)
  else
    let '(s, served) := startHttpServer listens s in
    match served with
    | Thrown => (s, Thrown)
    | Returned _ =>
        let '(onvif, subscribed) := createEventSubscription answer (onvifService s) in
        (setOnvifService onvif s,
         match subscribed with
         | Returned _ => Returned tt
         | Thrown => Thrown
         end)
    end.

(** [createPullPointSubscription] of the event service, on the ONVIF
    service it holds; the flag says that it threw. *)
Definition createPullPointSubscription {A : Type} (answer : Answer A) (s : t)
    : t * bool :=
  let '(onvif, outcome) :=
    ONVIFService.createPullPointSubscription answer (onvifService s) in
  let created := match outcome with Returned _ => true | Thrown => false end in
  let '(svc, threw) := EventService.createPullPointSubscription created (service s) in
  (setOnvifService onvif (setService svc s), threw).

Definition startEventPolling (s : t) : t :=
  match EventService.polling (service s) with
  | None => s
  | Some _ => setPullTimer true s
  end.

Definition startPollingMethod {A : Type} (answer : Answer A) (s : t)
    : t * Outcome unit :=
  match EventService.polling (service s) with
  | None => (s, Thrown)
  | Some _ =>
      let '(s, threw) := createPullPointSubscription answer s in
      if threw then (s, Thrown) else (startEventPolling s, Returned tt)
  end.

(** [cleanup]: with a server to close it returns from there, and the
    unsubscription below is reached only without one. *)
Definition cleanup (unsubscribed : bool) (s : t) : t :=
  let s := if pullTimer s then setPullTimer false s else s in
  if httpServer s then setHttpServer false s
  else setOnvifService (fst (unsubscribeFromEvents unsubscribed (onvifService s))) s.

Definition start {A : Type} (listens : bool) (answer : Answer A)
    (unsubscribed : bool) (s : t) : t * Outcome unit :=
  if EventService.isRunning (service s) then (s, Returned tt)
  else
    let '(s, outcome) :=
      match method s with
      | Push => startPushMethod listens answer s
      | Polling => startPollingMethod answer s
      end in
    match outcome with
    | Returned _ => (setService (setIsRunning true (service s)) s, Returned tt)
    | Thrown => (cleanup unsubscribed s, Thrown)
    end.

Definition stop (unsubscribed : bool) (s : t) : t :=
  if negb (EventService.isRunning (service s)) then s
  else cleanup unsubscribed (setService (setIsRunning false (service s)) s).

(** The pull timer fires: [pollForEvents] is entered when there is a
    timer to fire. *)
Definition tick (env : EventService.Env) (s : t) : t :=
  if pullTimer s
  then setService (EventService.step env (service s) EventService.Tick) s
  else s.

(** An event service as its constructor leaves it. *)
Definition fresh (m : Method) (polling : option EventService.PollingConfig)
    (pushConfig : bool) (onvif : ONVIFService.t) : t :=
  {| service := {| EventService.polling := polling;
                   EventService.isRunning := false;
                   EventService.eventCounter := 0;
                   EventService.retryCount := 0;
                   EventService.subscriptionActive := false;
                   EventService.emitted := [];
                   EventService.gateway := [];
                   EventService.inFlight := 0 |};
     onvifService := onvif; method := m; push := pushConfig;
     httpServer := false; pullTimer := false |}.

End EventServiceLifecycle.

(* ===================================================================== *)
(** * The application: [ONVIFApp]                                         *)
(* ===================================================================== *)

Module ONVIFApp.
Import ONVIFService.

(** The event service holds the ONVIF service the application built: the
    two share one object, kept here inside [eventService]. *)
Record t := {
  eventService : EventServiceLifecycle.t;
  alertService : option AlertService.t;
  eventsEnabled : bool;        (* [config.events.enabled] *)
  isRunning : bool
}.

Definition onvifService (app : t) : ONVIFService.t :=
  EventServiceLifecycle.onvifService (eventService app).

Definition setOnvifService (onvif : ONVIFService.t) (app : t) : t :=
  {| eventService := EventServiceLifecycle.setOnvifService onvif (eventService app);
     alertService := alertService app; eventsEnabled := eventsEnabled app;
     isRunning := isRunning app |}.

Definition setEventService (es : EventServiceLifecycle.t) (app : t) : t :=
  {| eventService := es; alertService := alertService app;
     eventsEnabled := eventsEnabled app; isRunning := isRunning app |}.

Definition setAlertService (a : option AlertService.t) (app : t) : t :=
  {| eventService := eventService app; alertService := a;
     eventsEnabled := eventsEnabled app; isRunning := isRunning app |}.

Definition setIsRunning (b : bool) (app : t) : t :=
  {| eventService := eventService app; alertService := alertService app;
     eventsEnabled := eventsEnabled app; isRunning := b |}.

(** The constructor: an alert service is built only when the
    configuration enables alerts. *)
Definition create (m : EventServiceLifecycle.Method)
    (polling : option EventService.PollingConfig) (pushConfig : bool)
    (events : bool) (alerts : AlertService.AlertConfig) : t :=
  {| eventService := EventServiceLifecycle.fresh m polling pushConfig ONVIFService.fresh;
     alertService :=
       if AlertService.enabled alerts
       then Some {| AlertService.config := alerts;
                    AlertService.alertCounter := 0;
                    AlertService.isEnabled := AlertService.enabled alerts;
                    AlertService.throttleMap := ∅;
                    AlertService.emitted := [] |}
       else None;
     eventsEnabled := events;
     isRunning := false |}.

(** What the camera and the network do during one [start]. *)
Record Startup (A : Type) := {
  connectFails : bool;
  deviceInformation : Answer A;
  capabilities : Answer A;
  streamUri : Answer A;
  listens : bool;
  subscriptionAnswer : Answer A;
  unsubscribed : bool
}.

Arguments connectFails {A}.
Arguments deviceInformation {A}.
Arguments capabilities {A}.
Arguments streamUri {A}.
Arguments listens {A}.
Arguments subscriptionAnswer {A}.
Arguments unsubscribed {A}.

(** [start]; the three [display...] calls keep their errors to
    themselves. *)
Definition start {A : Type} (w : Startup A) (app : t) : t * Outcome unit :=
  if isRunning app then (app, Returned tt)
  else
    let '(onvif, connected) := connect (connectFails w) (onvifService app) in
    let app := setOnvifService onvif app in
    match connected with
    | Thrown => (app, Thrown)
    | Returned _ =>
        let app := setOnvifService
                     (fst (getDeviceInformation (deviceInformation w) (onvifService app)))
                     app in
        let app := setOnvifService
                     (fst (getCapabilities (capabilities w) (onvifService app)))
                     app in
        let app := setOnvifService
                     (fst (getStreamUri (streamUri w) (onvifService app)))
                     app in
        if eventsEnabled app
        then
          let '(es, outcome) :=
            EventServiceLifecycle.start (listens w) (subscriptionAnswer w)
              (unsubscribed w) (eventService app) in
          match outcome with
          | Thrown => (setEventService es app, Thrown)
          | Returned _ => (setIsRunning true (setEventService es app), Returned tt)
          end
        else (setIsRunning true app, Returned tt)
    end.

(** [stop]: neither [eventService.stop] nor [disconnect] throws, so the
    [catch] is not reached. *)
Definition stop (unsubscribedByStop unsubscribedByDisconnect : bool) (app : t) : t :=
  if negb (isRunning app) then app
  else
    let app :=
      if eventsEnabled app
      then setEventService
             (EventServiceLifecycle.stop unsubscribedByStop (eventService app)) app
      else app in
    let app := setOnvifService
                 (disconnect unsubscribedByDisconnect (onvifService app)) app in
    setIsRunning false app.

(** [handleEvent]: the device information is asked for, a failure giving
    [null], and the event is handed to [sendAlert]. *)
Definition handleEvent {A : Type} (deviceInfo : Answer A) (now : Z)
    (fetch : nat -> AlertService.FetchResult) (event : ProcessedEvent) (app : t) : t :=
  match alertService app with
  | Some a =>
      if AlertService.isAlertEnabled a
      then
        let app := setOnvifService
                     (fst (getDeviceInformation deviceInfo (onvifService app))) app in
        setAlertService (Some (fst (AlertService.sendAlert a now fetch event))) app
      else app
  | None => app
  end.

Definition enableAlerts (app : t) : t :=
  match alertService app with
  | Some a => setAlertService (Some (AlertService.enable a)) app
  | None => app
  end.

Definition disableAlerts (app : t) : t :=
  match alertService app with
  | Some a => setAlertService (Some (AlertService.disable a)) app
  | None => app
  end.

Definition areAlertsEnabled (app : t) : bool :=
  match alertService app with
  | Some a => AlertService.isAlertEnabled a
  | None => false
  end.

(** [testAlertWebhook]: [false] without an alert service, and when the
    test throws. *)
Definition testAlertWebhook (fetch : nat -> AlertService.FetchResult) (app : t) : bool :=
  match alertService app with
  | None => false
  | Some a =>
      match AlertService.testWebhook a fetch with
      | Some result => result
      | None => false
      end
  end.

(** ** The handling of events as it interleaves

    The listener on ['event'] calls [handleEvent] and drops its promise,
    so that invocations overlap: each is suspended at its request for the
    device information, and again inside [sendAlert] at the delivery. *)

(** [handleEvent] up to its first [await]: the guard and, past it, the
    request for the device information; the flag says that the invocation
    is now suspended there. *)
Definition handleEventBegin {A : Type} (deviceInfo : Answer A) (app : t) : t * bool :=
  match alertService app with
  | Some a =>
      if AlertService.isAlertEnabled a
      then (setOnvifService
              (fst (getDeviceInformation deviceInfo (onvifService app))) app,
            true)
      else (app, false)
  | None => (app, false)
  end.

(** From there to the [await] inside [sendAlert]; the flag says that the
    delivery was begun. *)
Definition handleEventResume (now : Z) (event : ProcessedEvent) (app : t) : t * bool :=
  match alertService app with
  | Some a =>
      (setAlertService (Some (fst (AlertService.sendAlertBegin a now event))) app,
       snd (AlertService.sendAlertBegin a now event))
  | None => (app, false)
  end.

(** From the settling of the delivery to the end. *)
Definition handleEventEnd (fetch : nat -> AlertService.FetchResult)
    (event : ProcessedEvent) (app : t) : t :=
  match alertService app with
  | Some a =>
      setAlertService
        (Some (AlertService.sendAlertEnd a
                 (AlertService.sendWebhook (AlertService.config a) fetch) event))
        app
  | None => app
  end.

(** The application with the invocations of [handleEvent] that are
    suspended: the events whose device information is awaited, and those
    whose delivery is. *)
Record Handling := {
  app : t;
  awaitingCamera : list ProcessedEvent;
  awaitingWebhook : list ProcessedEvent
}.

(** What the event loop brings: the listener on ['event'] calls
    [handleEvent] for an event; the camera answers the [k]-th request
    awaited, [now] being what the clock reads when the throttle is then
    asked; the [k]-th delivery awaited settles. *)
Inductive HandlerEvent (A : Type) :=
| HandleEventCalled (event : ProcessedEvent) (deviceInfo : Answer A)
| CameraSettled (k : nat) (now : Z)
| WebhookSettled (k : nat) (fetch : nat -> AlertService.FetchResult).

Arguments HandleEventCalled {A} event deviceInfo.
Arguments CameraSettled {A} k now.
Arguments WebhookSettled {A} k fetch.

Definition handle {A : Type} (h : Handling) (e : HandlerEvent A) : Handling :=
  match e with
  | HandleEventCalled event deviceInfo =>
      let '(app', suspended) := handleEventBegin deviceInfo (app h) in
      {| app := app';
         awaitingCamera := if suspended
                           then awaitingCamera h ++ [event]
                           else awaitingCamera h;
         awaitingWebhook := awaitingWebhook h |}
  | CameraSettled k now =>
      match awaitingCamera h !! k with
      | None => h
      | Some event =>
          let '(app', suspended) := handleEventResume now event (app h) in
          {| app := app';
             awaitingCamera := delete k (awaitingCamera h);
             awaitingWebhook := if suspended
                                then awaitingWebhook h ++ [event]
                                else awaitingWebhook h |}
      end
  | WebhookSettled k fetch =>
      match awaitingWebhook h !! k with
      | None => h
      | Some event =>
          {| app := handleEventEnd fetch event (app h);
             awaitingCamera := awaitingCamera h;
             awaitingWebhook := delete k (awaitingWebhook h) |}
      end
  end.

Definition handleAll {A : Type} (es : list (HandlerEvent A)) (h : Handling) : Handling :=
  fold_left handle es h.

(** How many of the loop's events are calls of [handleEvent]. *)
Definition invocations {A : Type} (es : list (HandlerEvent A)) : nat :=
  length (List.filter
            (fun e => match e with HandleEventCalled _ _ => true | _ => false end) es).

(** The calls the application makes from outside, one after the other. *)
Inductive Call (A : Type) :=
| CallEnableAlerts
| CallDisableAlerts
| CallHandleEvent (deviceInfo : Answer A) (now : Z)
    (fetch : nat -> AlertService.FetchResult) (event : ProcessedEvent).

Arguments CallEnableAlerts {A}.
Arguments CallDisableAlerts {A}.
Arguments CallHandleEvent {A} deviceInfo now fetch event.

Definition perform {A : Type} (app : t) (c : Call A) : t :=
  match c with
  | CallEnableAlerts => enableAlerts app
  | CallDisableAlerts => disableAlerts app
  | CallHandleEvent deviceInfo now fetch event =>
      handleEvent deviceInfo now fetch event app
  end.

Definition performAll {A : Type} (calls : list (Call A)) (app : t) : t :=
  fold_left perform calls app.

End ONVIFApp.

(* ===================================================================== *)
(** * The throttle: [shouldSendAlert]                                     *)
(* ===================================================================== *)

Section ThrottleFacts.
Import AlertService Throttle.

Lemma shouldSendAlert_onRecord cfg now c (m : gmap string ThrottleRecord) :
  shouldSendAlert cfg now c m
  = (fst (onRecord cfg now (m !! c)), <[c := snd (onRecord cfg now (m !! c))]> m).
Proof.
  unfold shouldSendAlert, onRecord.
  repeat (case_match; simpl; try reflexivity).
Qed.

Lemma shouldSendAlert_same cfg now c (m : gmap string ThrottleRecord) :
  snd (shouldSendAlert cfg now c m) !! c = Some (snd (onRecord cfg now (m !! c))).
Proof. rewrite shouldSendAlert_onRecord. simpl. apply lookup_insert_eq. Qed.

Lemma shouldSendAlert_other cfg now c c' (m : gmap string ThrottleRecord) :
  c <> c' -> snd (shouldSendAlert cfg now c m) !! c' = m !! c'.
Proof.
  intros Hne. rewrite shouldSendAlert_onRecord. simpl.
  by apply lookup_insert_ne.
Qed.

Lemma onRecord_refines cfg now o :
  Spec.evaluate (windowMs cfg) (maxAlertsPerWindow cfg) (debounceMs cfg) now
    (abstract <$> o)
  = (fst (onRecord cfg now o), abstract (snd (onRecord cfg now o))).
Proof.
  unfold Spec.evaluate, onRecord, abstract.
  destruct o as [r|]; simpl;
    repeat (case_match; simpl in *; try reflexivity; try congruence).
Qed.

Lemma throttle_app cfg xs ys (m : gmap string ThrottleRecord) :
  throttle cfg (xs ++ ys)%list m
  = ((fst (throttle cfg xs m) ++ fst (throttle cfg ys (snd (throttle cfg xs m))))%list,
     snd (throttle cfg ys (snd (throttle cfg xs m)))).
Proof.
  revert m. induction xs as [|[c t] xs IH]; intros m; simpl.
  - by destruct (throttle cfg ys m).
  - destruct (shouldSendAlert cfg t c m) as [b m'] eqn:E. rewrite IH.
    by destruct (throttle cfg xs m').
Qed.

Lemma decisions_one_type cfg c times (m : gmap string ThrottleRecord) :
  decisions cfg (map (pair c) times) m = onRecords cfg times (m !! c).
Proof.
  unfold decisions. revert m. induction times as [|t ts IH]; intros m; simpl.
  - reflexivity.
  - rewrite shouldSendAlert_onRecord.
    specialize (IH (<[c := snd (onRecord cfg t (m !! c))]> m)).
    destruct (throttle cfg (map (pair c) ts) _) as [bs m'']. simpl in *.
    by rewrite IH, lookup_insert_eq.
Qed.

(** ** The outcomes of one call, by the tests that lead to them *)

Lemma onRecord_created cfg now :
  onRecord cfg now None
  = onRecord cfg now (Some {| count := 0; windowStart := now; lastEventTime := 0;
                              debounceTimer := None |}).
Proof. reflexivity. Qed.

Lemma onRecord_admits cfg now r :
  now - windowStart r < windowMs cfg ->
  count r < maxAlertsPerWindow cfg ->
  lastEventTime r <= 0 \/ debounceMs cfg <= now - lastEventTime r ->
  onRecord cfg now (Some r)
  = (true, {| count := count r + 1; windowStart := windowStart r;
              lastEventTime := now; debounceTimer := debounceTimer r |}).
Proof.
  intros Hw Hc Hd. unfold onRecord. cbv zeta. rewrite !Z.geb_leb, Z.gtb_ltb.
  destruct (Z.leb_spec (windowMs cfg) (now - windowStart r)); [lia|].
  destruct (Z.leb_spec (maxAlertsPerWindow cfg) (count r)); [lia|].
  destruct (Z.ltb_spec 0 (lastEventTime r)); simpl; [|reflexivity].
  destruct (Z.ltb_spec (now - lastEventTime r) (debounceMs cfg)); [lia|reflexivity].
Qed.

Lemma onRecord_debounces cfg now r :
  now - windowStart r < windowMs cfg ->
  count r < maxAlertsPerWindow cfg ->
  0 < lastEventTime r ->
  now - lastEventTime r < debounceMs cfg ->
  onRecord cfg now (Some r)
  = (false, {| count := count r; windowStart := windowStart r;
               lastEventTime := lastEventTime r;
               debounceTimer := Some (debounceMs cfg - (now - lastEventTime r)) |}).
Proof.
  intros Hw Hc Hl Hd. unfold onRecord. cbv zeta. rewrite !Z.geb_leb, Z.gtb_ltb.
  destruct (Z.leb_spec (windowMs cfg) (now - windowStart r)); [lia|].
  destruct (Z.leb_spec (maxAlertsPerWindow cfg) (count r)); [lia|].
  destruct (Z.ltb_spec 0 (lastEventTime r)); [|lia].
  destruct (Z.ltb_spec (now - lastEventTime r) (debounceMs cfg)); [reflexivity|lia].
Qed.

Ltac admitted_here :=
  rewrite onRecord_admits by (simpl; lia); cbn [fst snd].
Ltac debounced_here :=
  rewrite onRecord_debounces by (simpl; lia); cbn [fst snd].

Lemma scenario_positive_start t0 :
  0 < t0 ->
  decisions scenarioConfig (scenario t0) ∅ = [true; false; false; false; false; true].
Proof.
  intros Hpos.
  change (scenario t0)
    with (map (pair "motionalarm")
              [t0; t0 + 1000; t0 + 2000; t0 + 3000; t0 + 4000; t0 + 5000]).
  rewrite decisions_one_type, lookup_empty.
  cbn [onRecords]. rewrite onRecord_created.
  admitted_here. do 4 debounced_here. admitted_here.
  reflexivity.
Qed.

(** C1, the scenario as the claim words it.  With the first arrival at
    clock reading 0 the admission at 0 leaves [lastEventTime] at 0, which
    the debounce test reads as no admission so far: the arrival at 1000
    is admitted too, and the one at 5000 is debounced against it. *)
Lemma scenario_from_zero :
  decisions scenarioConfig (scenario 0) ∅ = [true; true; false; false; false; false]
  /\ decisions scenarioConfig (scenario 0) ∅ <> [true; false; false; false; false; true].
Proof. split; [vm_compute; reflexivity | vm_compute; discriminate]. Qed.

(** C1 (amended).  On the record of the event type, [shouldSendAlert]
    decides and assigns exactly as the four steps of the specification do,
    in their order, and leaves every other record alone; and with
    windowMs=60000, maxPerWindow=5, debounceMs=5000, six arrivals of one
    type a second apart that start at a clock reading t0 > 0 have the
    first and the last admitted and the four in between suppressed. *)
Theorem shouldSendAlert_follows_the_four_steps :
  (forall cfg T c (m : gmap string ThrottleRecord),
      exists r',
        Spec.evaluate (windowMs cfg) (maxAlertsPerWindow cfg) (debounceMs cfg) T
          (abstract <$> m !! c)
        = (fst (shouldSendAlert cfg T c m), r')
        /\ abstract <$> snd (shouldSendAlert cfg T c m) !! c = Some r'
        /\ forall c', c <> c' -> snd (shouldSendAlert cfg T c m) !! c' = m !! c')
  /\ (forall t0, 0 < t0 ->
         decisions scenarioConfig (scenario t0) ∅
         = [true; false; false; false; false; true]).
Proof.
  split.
  - intros cfg T c m. exists (abstract (snd (onRecord cfg T (m !! c)))).
    split; [|split].
    + rewrite onRecord_refines. by rewrite shouldSendAlert_onRecord.
    + by rewrite shouldSendAlert_same.
    + intros c' Hne. by apply shouldSendAlert_other.
  - apply scenario_positive_start.
Qed.

Lemma shouldSendAlert_follows_the_four_steps_witness :
  0 < 1700000000000
  /\ decisions scenarioConfig (scenario 1700000000000) ∅
     = [true; false; false; false; false; true].
Proof.
  split; [lia|].
  apply (proj2 shouldSendAlert_follows_the_four_steps 1700000000000). lia.
Defined.

(** ** Counting admitted arrivals *)

Lemma countIf_nil P : countIf P [] = 0.
Proof. reflexivity. Qed.

Lemma countIf_snoc P ts t :
  countIf P (ts ++ [t]) = countIf P ts + (if P t then 1 else 0).
Proof.
  unfold countIf. rewrite List.filter_app, length_app. simpl.
  destruct (P t); simpl; lia.
Qed.

Lemma countIf_le_or P Q1 Q2 ts :
  (forall t, In t ts -> P t = true -> Q1 t = true \/ Q2 t = true) ->
  countIf P ts <= countIf Q1 ts + countIf Q2 ts.
Proof.
  unfold countIf. induction ts as [|t ts IH]; intros H; simpl; [lia|].
  assert (IH' := IH (fun u Hu => H u (or_intror Hu))).
  specialize (H t (or_introl eq_refl)).
  destruct (P t), (Q1 t), (Q2 t); simpl in *;
    first [lia | destruct (H eq_refl); discriminate].
Qed.

Lemma countIf_le P Q ts :
  (forall t, In t ts -> P t = true -> Q t = true) ->
  countIf P ts <= countIf Q ts.
Proof.
  unfold countIf. induction ts as [|t ts IH]; intros H; simpl; [lia|].
  assert (IH' := IH (fun u Hu => H u (or_intror Hu))).
  specialize (H t (or_introl eq_refl)).
  destruct (P t), (Q t); simpl in *;
    first [lia | specialize (H eq_refl); discriminate].
Qed.

Lemma countIf_none P ts :
  (forall t, In t ts -> P t = false) -> countIf P ts = 0.
Proof.
  unfold countIf. induction ts as [|t ts IH]; intros H; simpl; [reflexivity|].
  rewrite (H t (or_introl eq_refl)). apply IH. intros u Hu. apply H. by right.
Qed.

(** ** The fixed window *)

Section Window.
Variable cfg : ThrottlingConfig.
Variable a : Z.
Hypothesis window_positive : 0 < windowMs cfg.
Hypothesis max_nonnegative : 0 <= maxAlertsPerWindow cfg.

Lemma windowInv_later r adm lo lo' :
  lo <= lo' -> windowInv cfg a r adm lo -> windowInv cfg a r adm lo'.
Proof. unfold windowInv. intros Hle (H1 & H). split; [lia | exact H]. Qed.

Lemma throttleInv_later o adm lo lo' :
  lo <= lo' -> throttleInv cfg a o adm lo -> throttleInv cfg a o adm lo'.
Proof. destruct o; simpl; eauto using windowInv_later. Qed.

(** Step 1: after the reset test the arrival lies inside the window. *)
Lemma windowInv_rollover r adm lo T :
  lo <= T -> windowInv cfg a r adm lo ->
  let r1 := if T - windowStart r >=? windowMs cfg
            then {| count := 0; windowStart := T;
                    lastEventTime := lastEventTime r;
                    debounceTimer := debounceTimer r |}
            else r in
  windowInv cfg a r1 adm T /\ windowStart r1 <= T < windowStart r1 + windowMs cfg.
Proof.
  intros Hlo (Hws & Hcnt & Hmax & Hin & Hprev & Hroll). simpl.
  rewrite Z.geb_leb. destruct (Z.leb_spec (windowMs cfg) (T - windowStart r)).
  - split; [|simpl; lia]. unfold windowInv; simpl.
    split; [lia|]. split; [|split; [lia|split; [|split; [|exact Hroll]]]].
    + apply countIf_none. intros t Ht. specialize (Hin t Ht).
      apply Z.leb_gt. lia.
    + intros t Ht. specialize (Hin t Ht). lia.
    + rewrite <- Hcnt in Hmax. etrans; [|exact Hmax].
      apply countIf_le. intros t _ Ht.
      apply andb_prop in Ht as [Ht _]. apply Z.ltb_lt in Ht.
      apply Z.leb_le. lia.
  - split; [|lia]. unfold windowInv. repeat split; try assumption; lia.
Qed.

(** Step 4: an arrival inside the window is admitted below the cap. *)
Lemma windowInv_admit r adm T :
  windowInv cfg a r adm T ->
  windowStart r <= T < windowStart r + windowMs cfg ->
  count r < maxAlertsPerWindow cfg ->
  windowInv cfg a {| count := count r + 1; windowStart := windowStart r;
               lastEventTime := T; debounceTimer := debounceTimer r |}
            (adm ++ [T]) T.
Proof.
  intros (Hws & Hcnt & Hmax & Hin & Hprev & Hroll) HT Hbelow.
  unfold windowInv; simpl.
  split; [lia|]. split; [|split; [lia|split; [|split]]].
  - rewrite countIf_snoc, Hcnt.
    destruct (Z.leb_spec (windowStart r) T); lia.
  - intros t Ht. apply in_app_or in Ht as [Ht|[<-|[]]]; [by apply Hin | lia].
  - rewrite countIf_snoc.
    destruct (Z.ltb_spec T (windowStart r)); [lia|].
    rewrite andb_false_r. lia.
  - unfold countWithin in *. rewrite countIf_snoc.
    destruct (within a (windowMs cfg) T) eqn:Hw; [|lia].
    apply andb_prop in Hw as [Ha Hb].
    apply Z.leb_le in Ha. apply Z.ltb_lt in Hb.
    assert (countIf (within a (windowMs cfg)) adm
            <= countIf (fun t => windowStart r <=? t) adm
               + countIf (fun t => (windowStart r - windowMs cfg <? t)
                                    && (t <? windowStart r)) adm) as Hsplit.
    { apply countIf_le_or. intros t _ Ht.
      apply andb_prop in Ht as [Ht1 Ht2].
      apply Z.leb_le in Ht1. apply Z.ltb_lt in Ht2.
      destruct (Z.leb_spec (windowStart r) t); [by left|right].
      apply andb_true_intro. split; apply Z.ltb_lt; lia. }
    lia.
Qed.

(** One call of [shouldSendAlert], seen on the record it is for. *)
Lemma throttleInv_onRecord o adm lo T :
  lo <= T -> throttleInv cfg a o adm lo ->
  windowInv cfg a (snd (onRecord cfg T o))
            (if fst (onRecord cfg T o) then adm ++ [T] else adm)%list T.
Proof.
  intros Hlo Hinv.
  assert (exists r, windowInv cfg a r adm T
                    /\ onRecord cfg T o = onRecord cfg T (Some r)) as (r & Hr & ->).
  { destruct o as [r|]; [exists r; eauto using windowInv_later|].
    simpl in Hinv. subst adm.
    eexists. split; [|apply onRecord_created].
    unfold windowInv, countWithin; simpl. rewrite !countIf_nil.
    repeat split; try lia; intros t []. }
  destruct (windowInv_rollover r adm T T (Z.le_refl T) Hr) as [Hinv1 HT].
  unfold onRecord.
  set (r1 := if T - windowStart r >=? windowMs cfg
             then {| count := 0; windowStart := T;
                     lastEventTime := lastEventTime r;
                     debounceTimer := debounceTimer r |}
             else r) in *.
  rewrite Z.geb_leb.
  destruct (Z.leb_spec (maxAlertsPerWindow cfg) (count r1)); [exact Hinv1|].
  destruct ((lastEventTime r1 >? 0)
            && (T - lastEventTime r1 <? debounceMs cfg)); simpl.
  - exact Hinv1.
  - by apply windowInv_admit.
Qed.

Variable c : string.

Lemma throttle_cons_snd c' t rest (m : gmap string ThrottleRecord) :
  snd (throttle cfg ((c', t) :: rest) m)
  = snd (throttle cfg rest (snd (shouldSendAlert cfg t c' m))).
Proof.
  simpl. destruct (shouldSendAlert cfg t c' m) as [b m']. simpl.
  by destruct (throttle cfg rest m').
Qed.

Lemma admittedTimes_cons c' t rest (m : gmap string ThrottleRecord) :
  admittedTimes cfg c ((c', t) :: rest) m
  = ((if fst (shouldSendAlert cfg t c' m) && String.eqb c' c then [t] else [])
     ++ admittedTimes cfg c rest (snd (shouldSendAlert cfg t c' m)))%list.
Proof.
  simpl. destruct (shouldSendAlert cfg t c' m) as [b m']. simpl.
  by destruct (b && String.eqb c' c).
Qed.

(** The invariant along a run, whatever other event types arrive in
    between. *)
Lemma throttleInv_run arrivals :
  forall (m : gmap string ThrottleRecord) adm lo,
    throttleInv cfg a (m !! c) adm lo ->
    nondecreasing (lo :: map snd arrivals) = true ->
    exists lo',
      throttleInv cfg a (snd (throttle cfg arrivals m) !! c)
                  (adm ++ admittedTimes cfg c arrivals m)%list lo'.
Proof.
  induction arrivals as [|[c' t] rest IH]; intros m adm lo Hinv Hsorted.
  - exists lo. simpl. by rewrite app_nil_r.
  - cbn [map snd nondecreasing] in Hsorted.
    apply andb_prop in Hsorted as [Hlo Hsorted]. apply Z.leb_le in Hlo.
    rewrite throttle_cons_snd, admittedTimes_cons.
    destruct (String.eqb_spec c' c) as [->|Hne].
    + rewrite andb_true_r.
      assert (Hstep := throttleInv_onRecord (m !! c) adm lo t Hlo Hinv).
      rewrite shouldSendAlert_onRecord in *. cbn [fst snd] in *.
      destruct (IH (<[c := snd (onRecord cfg t (m !! c))]> m)
                   (if fst (onRecord cfg t (m !! c)) then adm ++ [t] else adm)%list
                   t) as [lo' Hlo']; [by rewrite lookup_insert_eq | done |].
      exists lo'.
      destruct (fst (onRecord cfg t (m !! c)));
        [by rewrite <- app_assoc in Hlo' | done].
    + rewrite andb_false_r. simpl.
      apply (IH _ adm t); [|done].
      rewrite shouldSendAlert_other by done.
      by apply throttleInv_later with lo.
Qed.

End Window.

(** C2 as the claim words it.  The count is kept per fixed window: five
    arrivals late in one window and more right after the next window has
    begun are all admitted, here six within the 60 s that start at
    t = 40000. *)
Lemma rolling_window_exceeded :
  let arrivals := map (pair "motionalarm")
                      [1000; 40000; 45000; 50000; 55000; 61000; 66000] in
  nondecreasing (map snd arrivals) = true
  /\ decisions scenarioConfig arrivals ∅ = [true; true; true; true; true; true; true]
  /\ countWithin 40000 (windowMs scenarioConfig)
       (admittedTimes scenarioConfig "motionalarm" arrivals ∅) = 6
  /\ ~ (countWithin 40000 (windowMs scenarioConfig)
         (admittedTimes scenarioConfig "motionalarm" arrivals ∅)
       <= maxAlertsPerWindow scenarioConfig).
Proof. vm_compute. repeat split; try reflexivity. intros H. by apply H. Qed.

(** C2 (amended).  With windowMs > 0 and maxPerWindow >= 0, and arrival
    times in clock order, the events of one type admitted within any
    rolling interval of length windowMs number at most 2 * maxPerWindow;
    and at most maxPerWindow of them arrived since the [windowStart] of
    the record, whose [count] is their number. *)
Theorem admitted_within_rolling_window cfg c arrivals a :
  0 < windowMs cfg ->
  0 <= maxAlertsPerWindow cfg ->
  nondecreasing (map snd arrivals) = true ->
  countWithin a (windowMs cfg) (admittedTimes cfg c arrivals ∅)
  <= 2 * maxAlertsPerWindow cfg
  /\ match snd (throttle cfg arrivals ∅) !! c with
     | Some r =>
         count r = countIf (fun t => windowStart r <=? t)
                           (admittedTimes cfg c arrivals ∅)
         /\ count r <= maxAlertsPerWindow cfg
     | None => admittedTimes cfg c arrivals ∅ = []
     end.
Proof.
  intros HW Hmax Hsorted.
  assert (exists lo, nondecreasing (lo :: map snd arrivals) = true) as [lo Hlo].
  { destruct arrivals as [|[c' t] rest]; [by exists 0|].
    exists t. cbn [map snd nondecreasing] in *. by rewrite Z.leb_refl. }
  destruct (throttleInv_run cfg a HW Hmax c arrivals ∅ [] lo) as [lo' Hinv];
    [by rewrite lookup_empty | done |].
  simpl in Hinv.
  destruct (snd (throttle cfg arrivals ∅) !! c) as [r|]; simpl in Hinv.
  - destruct Hinv as (_ & Hcnt & Hle & _ & _ & Hroll). auto.
  - rewrite Hinv. split; [|reflexivity]. unfold countWithin. rewrite countIf_nil. lia.
Qed.

Lemma admitted_within_rolling_window_witness :
  0 < windowMs scenarioConfig
  /\ 0 <= maxAlertsPerWindow scenarioConfig
  /\ countWithin 40000 (windowMs scenarioConfig)
       (admittedTimes scenarioConfig "motionalarm"
          (map (pair "motionalarm") [1000; 40000; 45000; 50000; 55000; 61000; 66000]) ∅)
     <= 2 * maxAlertsPerWindow scenarioConfig.
Proof.
  split; [reflexivity|]. split; [discriminate|].
  destruct (admitted_within_rolling_window scenarioConfig "motionalarm"
              (map (pair "motionalarm") [1000; 40000; 45000; 50000; 55000; 61000; 66000])
              40000) as [Hroll _]; [reflexivity | discriminate | reflexivity |].
  exact Hroll.
Defined.

(** ** Debounce *)

Lemma decisions_cons cfg c t rest (m : gmap string ThrottleRecord) :
  decisions cfg ((c, t) :: rest) m
  = fst (onRecord cfg t (m !! c))
      :: decisions cfg rest (<[c := snd (onRecord cfg t (m !! c))]> m).
Proof.
  unfold decisions. simpl. rewrite shouldSendAlert_onRecord.
  by destruct (throttle cfg rest _).
Qed.

Lemma decisions_app cfg xs ys (m : gmap string ThrottleRecord) :
  decisions cfg (xs ++ ys)%list m
  = (decisions cfg xs m ++ decisions cfg ys (snd (throttle cfg xs m)))%list.
Proof. unfold decisions. by rewrite throttle_app. Qed.

Lemma decisions_length cfg xs (m : gmap string ThrottleRecord) :
  length (decisions cfg xs m) = length xs.
Proof.
  revert m. induction xs as [|[c t] xs IH]; intros m; [reflexivity|].
  rewrite decisions_cons. simpl. by rewrite IH.
Qed.

(** A property of the record of type [c] that every call keeps, is kept
    by a run. *)
Lemma throttle_keeps cfg c (I : option ThrottleRecord -> Prop) (P : Z -> Prop) :
  (forall o T, P T -> I o -> I (Some (snd (onRecord cfg T o)))) ->
  forall arrivals (m : gmap string ThrottleRecord),
    Forall (fun e : Arrival => P (snd e)) arrivals ->
    I (m !! c) -> I (snd (throttle cfg arrivals m) !! c).
Proof.
  intros Hstep. induction arrivals as [|[c' t] rest IH]; intros m Hall Hm; [done|].
  rewrite throttle_cons_snd. apply Forall_cons in Hall as [Ht Hall].
  apply IH; [done|].
  destruct (String.eqb_spec c' c) as [->|Hne].
  - rewrite shouldSendAlert_same. by apply Hstep.
  - by rewrite shouldSendAlert_other.
Qed.

Lemma onRecord_admitted_last cfg T o :
  fst (onRecord cfg T o) = true -> lastEventTime (snd (onRecord cfg T o)) = T.
Proof.
  unfold onRecord. cbv zeta.
  repeat (case_match; simpl; try discriminate; try reflexivity).
Qed.

Lemma onRecord_keeps_recent cfg T1 T2 T o :
  0 < T1 -> T2 - T1 < debounceMs cfg -> T1 <= T <= T2 ->
  (exists r, o = Some r
             /\ 0 < lastEventTime r /\ T2 - lastEventTime r < debounceMs cfg) ->
  exists r', Some (snd (onRecord cfg T o)) = Some r'
             /\ 0 < lastEventTime r' /\ T2 - lastEventTime r' < debounceMs cfg.
Proof.
  intros Hpos Hgap HT (r & -> & Hr). eexists. split; [reflexivity|].
  unfold onRecord. cbv zeta.
  repeat (case_match; simpl; try lia).
Qed.

Lemma onRecord_suppresses_recent cfg T r :
  0 < lastEventTime r ->
  T - lastEventTime r < debounceMs cfg ->
  fst (onRecord cfg T (Some r)) = false.
Proof.
  intros Hpos Hgap.
  assert ((lastEventTime r >? 0) && (T - lastEventTime r <? debounceMs cfg) = true)
    as Hd.
  { apply andb_true_intro. split; [apply Z.gtb_lt | apply Z.ltb_lt]; lia. }
  unfold onRecord. cbv zeta.
  destruct (T - windowStart r >=? windowMs cfg); simpl;
    (destruct (_ >=? maxAlertsPerWindow cfg); simpl;
     [reflexivity | rewrite Hd; reflexivity]).
Qed.

(** C5 as the claim words it.  Debounce is measured from the last
    admission, and only from one at a positive clock reading.  With
    debounceMs = 5000: of the arrivals at 1000, 5000 and 6000 the one at
    5000 is suppressed and the one at 6000, a second after it, admitted;
    and the arrivals at 0 and 1000 are both admitted, since the admission
    at 0 leaves [lastEventTime] at 0. *)
Lemma within_debounce_second_admitted :
  (6000 - 5000 < debounceMs scenarioConfig
   /\ decisions scenarioConfig
        [("motionalarm", 1000); ("motionalarm", 5000); ("motionalarm", 6000)] ∅
      = [true; false; true])
  /\ (1000 - 0 < debounceMs scenarioConfig
      /\ decisions scenarioConfig [("motionalarm", 0); ("motionalarm", 1000)] ∅
         = [true; true]).
Proof. repeat split; vm_compute; reflexivity. Qed.

(** C5 (amended).  Of two events of one type, the first admitted at a
    clock reading T1 > 0 and the second arriving less than debounceMs
    after it, with the arrivals in between reading between the two, the
    second is suppressed. *)
Theorem second_within_debounce_suppressed cfg c T1 T2 pre mid post
    (m : gmap string ThrottleRecord) :
  0 < T1 ->
  T2 - T1 < debounceMs cfg ->
  Forall (fun e : Arrival => T1 <= snd e <= T2) mid ->
  let ds := decisions cfg (pre ++ (c, T1) :: mid ++ (c, T2) :: post)%list m in
  ds !! length pre = Some true ->
  ds !! (length pre + S (length mid))%nat = Some false.
Proof.
  intros Hpos Hgap Hmid ds. subst ds.
  rewrite decisions_app.
  rewrite !lookup_app_r by (rewrite decisions_length; lia).
  rewrite !decisions_length.
  replace (length pre - length pre)%nat with 0%nat by lia.
  replace (length pre + S (length mid) - length pre)%nat with (S (length mid)) by lia.
  set (m1 := snd (throttle cfg pre m)).
  rewrite decisions_cons.
  match goal with
  | |- (?b :: ?l) !! 0%nat = _ -> (?b :: ?l) !! S ?i = _ =>
      change (Some b = Some true -> l !! i = Some false)
  end.
  intros Hfirst. injection Hfirst as Hfirst.
  rewrite decisions_app, lookup_app_r by (rewrite decisions_length; lia).
  rewrite decisions_length, Nat.sub_diag, decisions_cons.
  match goal with
  | |- (?b :: ?l) !! 0%nat = _ => change (Some b = Some false)
  end.
  f_equal.
  set (m2 := <[c := snd (onRecord cfg T1 (m1 !! c))]> m1).
  assert (exists r, snd (throttle cfg mid m2) !! c = Some r
                    /\ 0 < lastEventTime r
                    /\ T2 - lastEventTime r < debounceMs cfg) as (r & -> & Hr).
  { apply (throttle_keeps cfg c
             (fun o => exists r, o = Some r
                                 /\ 0 < lastEventTime r
                                 /\ T2 - lastEventTime r < debounceMs cfg)
             (fun T => T1 <= T <= T2)); [|done|].
    - intros o T HT Ho. by apply (onRecord_keeps_recent cfg T1).
    - exists (snd (onRecord cfg T1 (m1 !! c))). subst m2.
      rewrite lookup_insert_eq. split; [done|].
      rewrite (onRecord_admitted_last _ _ _ Hfirst). lia. }
  apply onRecord_suppresses_recent; lia.
Qed.

Lemma second_within_debounce_suppressed_witness :
  decisions scenarioConfig
    [("motionalarm", 1000); ("motionalarm", 2000); ("motionalarm", 3000)] ∅
  !! 2%nat = Some false.
Proof.
  assert (0 < 1000) as H1 by lia.
  assert (3000 - 1000 < debounceMs scenarioConfig) as H2 by reflexivity.
  assert (Forall (fun e : Arrival => 1000 <= snd e <= 3000) [("motionalarm", 2000)])
    as H3 by (repeat constructor; simpl; lia).
  assert (decisions scenarioConfig
            ([] ++ ("motionalarm", 1000)
                :: [("motionalarm", 2000)] ++ ("motionalarm", 3000) :: [])%list ∅
          !! length (@nil Arrival) = Some true) as H4 by (vm_compute; reflexivity).
  exact (second_within_debounce_suppressed scenarioConfig "motionalarm" 1000 3000
           [] [("motionalarm", 2000)] [] ∅ H1 H2 H3 H4).
Defined.

End ThrottleFacts.

(* ===================================================================== *)
(** * Delivery: [sendWebhook] and [sendAlert]                             *)
(* ===================================================================== *)

Section DeliveryFacts.
Import AlertService Throttle.

Lemma sendWebhookFrom_calls fetch retryAttempts n attempt :
  exists k, (k <= n)%nat
            /\ calls (sendWebhookFrom fetch retryAttempts n attempt) = seq attempt k.
Proof.
  revert attempt. induction n as [|n IH]; intros attempt; simpl.
  - exists 0%nat. split; [lia | reflexivity].
  - destruct (match fetch attempt with Response status => ok status | Rejected => false end).
    + exists 1%nat. split; [lia | reflexivity].
    + destruct (IH (S attempt)) as (k & Hk & E). exists (S k).
      split; [lia|]. simpl. by rewrite E.
Qed.

Lemma failedAttempt_spec r :
  failedAttempt r ->
  match r with Response status => ok status | Rejected => false end = false.
Proof. by destruct r. Qed.

(** All of the attempts left fail: the loop runs out. *)
Lemma sendWebhookFrom_exhausted fetch retryAttempts n attempt :
  (forall j, (attempt <= j < attempt + n)%nat -> failedAttempt (fetch j)) ->
  delivered (sendWebhookFrom fetch retryAttempts n attempt) = false
  /\ calls (sendWebhookFrom fetch retryAttempts n attempt) = seq attempt n.
Proof.
  revert attempt. induction n as [|n IH]; intros attempt Hfail; simpl; [done|].
  rewrite failedAttempt_spec by (apply Hfail; lia). simpl.
  destruct (IH (S attempt)) as [Hd Hc]; [intros j Hj; apply Hfail; lia|].
  by rewrite Hd, Hc.
Qed.

(** The first success after [k] failures ends the loop there. *)
Lemma sendWebhookFrom_succeeds fetch retryAttempts n attempt k status :
  (k < n)%nat ->
  (forall j, (attempt <= j < attempt + k)%nat -> failedAttempt (fetch j)) ->
  fetch (attempt + k)%nat = Response status ->
  ok status = true ->
  delivered (sendWebhookFrom fetch retryAttempts n attempt) = true
  /\ calls (sendWebhookFrom fetch retryAttempts n attempt) = seq attempt (S k).
Proof.
  revert attempt k. induction n as [|n IH]; intros attempt k Hk Hfail Hfetch Hok; [lia|].
  simpl. destruct k as [|k].
  - rewrite Nat.add_0_r in Hfetch. by rewrite Hfetch, Hok.
  - rewrite failedAttempt_spec by (apply Hfail; lia). simpl.
    destruct (IH (S attempt) k) as [Hd Hc];
      [lia | intros j Hj; apply Hfail; lia
       | by rewrite <- Hfetch, Nat.add_succ_r | done |].
    by rewrite Hd, Hc.
Qed.

Lemma sendAlert_passes s now fetch event :
  passes s now event = true ->
  snd (sendAlert s now fetch event) = Some (sendWebhook (config s) fetch)
  /\ emitted (fst (sendAlert s now fetch event))
     = (emitted s ++ [if delivered (sendWebhook (config s) fetch)
                      then alertSent event else alertFailed event])%list
  /\ alertCounter (fst (sendAlert s now fetch event))
     = alertCounter s + (if delivered (sendWebhook (config s) fetch) then 1 else 0).
Proof.
  unfold passes, sendAlert, sendAlertBegin, sendAlertEnd. intros H.
  apply andb_prop in H as [H Hdate]. apply andb_prop in H as [H Hthr].
  apply andb_prop in H as [Hen Hurl].
  rewrite Hen. apply negb_true_iff in Hurl, Hdate. rewrite Hurl, Hdate. simpl.
  destruct (thr_enabled (throttling (config s))).
  - destruct (shouldSendAlert _ _ _ _) as [b m']. simpl in Hthr. subst b. simpl.
    destruct (delivered (sendWebhook (config s) fetch)); simpl; repeat split; lia.
  - simpl. destruct (delivered (sendWebhook (config s) fetch)); simpl; repeat split; lia.
Qed.

Lemma sendAlert_keeps_service s now fetch event :
  isEnabled (fst (sendAlert s now fetch event)) = isEnabled s
  /\ config (fst (sendAlert s now fetch event)) = config s.
Proof.
  unfold sendAlert, sendAlertBegin, sendAlertEnd.
  destruct (isEnabled s) eqn:Hen; simpl; [|by rewrite Hen].
  destruct (String.eqb _ _); simpl; [by rewrite Hen|].
  destruct (if thr_enabled _ then _ else _) as [b m'].
  destruct b; simpl; [|done].
  destruct (toISOStringThrows _); simpl; [done|].
  destruct (delivered _); simpl; done.
Qed.





Lemma dispatch_keeps_service batch :
  forall s, isEnabled (dispatch s batch) = isEnabled s
            /\ config (dispatch s batch) = config s.
Proof.
  induction batch as [|[[now fetch] event] rest IH]; intros s; simpl; [done|].
  destruct (IH (fst (sendAlert s now fetch event))) as [-> ->].
  apply sendAlert_keeps_service.
Qed.

(** Which events get as far as the webhook does not depend on what the
    webhook did for the events before them. *)
Lemma sendAlert_decides_alike s1 s2 now fetch1 fetch2 event :
  isEnabled s1 = isEnabled s2 -> config s1 = config s2 ->
  throttleMap s1 = throttleMap s2 ->
  throttleMap (fst (sendAlert s1 now fetch1 event))
  = throttleMap (fst (sendAlert s2 now fetch2 event))
  /\ (is_Some (snd (sendAlert s1 now fetch1 event))
      <-> is_Some (snd (sendAlert s2 now fetch2 event))).
Proof.
  intros Hen Hcfg Hmap. unfold sendAlert, sendAlertBegin, sendAlertEnd. rewrite Hen, Hcfg, Hmap.
  destruct (isEnabled s2); simpl; [|by rewrite Hmap].
  destruct (String.eqb _ _); simpl; [by rewrite Hmap|].
  destruct (if thr_enabled _ then _ else _) as [b m'].
  destruct b; simpl; [|done].
  destruct (toISOStringThrows _); simpl; [done|].
  destruct (delivered (sendWebhook (config s2) fetch1)),
           (delivered (sendWebhook (config s2) fetch2)); simpl;
    (split; [done | split; intros _; eauto]).
Qed.

(** With throttling off every event of a batch has its own delivery and
    its own report, whatever became of the deliveries before it. *)
Lemma dispatch_unthrottled batch :
  forall s,
    isEnabled s = true ->
    webhookUrl (config s) <> EmptyString ->
    thr_enabled (throttling (config s)) = false ->
    emitted (dispatch s batch)
    = (emitted s
       ++ map (fun x : Z * (nat -> FetchResult) * ProcessedEvent =>
                 if negb (toISOStringThrows (timestamp (snd x)))
                    && delivered (sendWebhook (config s) (snd (fst x)))
                 then alertSent (snd x) else alertFailed (snd x)) batch)%list.
Proof.
  induction batch as [|[[now fetch] event] rest IH]; intros s Hen Hurl Hthr; simpl.
  - by rewrite app_nil_r.
  - destruct (sendAlert_keeps_service s now fetch event) as [Hen' Hcfg'].
    assert (emitted (fst (sendAlert s now fetch event))
            = (emitted s
               ++ [if negb (toISOStringThrows (timestamp event))
                      && delivered (sendWebhook (config s) fetch)
                   then alertSent event else alertFailed event])%list) as Hem.
    { destruct (toISOStringThrows (timestamp event)) eqn:Hdate; simpl.
      - unfold sendAlert, sendAlertBegin, sendAlertEnd. rewrite Hen, Hthr, Hdate. simpl.
        apply String.eqb_neq in Hurl. by rewrite Hurl.
      - assert (passes s now event = true) as Hpass.
        { unfold passes. rewrite Hen, Hthr, Hdate. apply String.eqb_neq in Hurl.
          by rewrite Hurl. }
        by destruct (sendAlert_passes s now fetch event Hpass) as (_ & -> & _). }
    rewrite IH by congruence. rewrite Hem, Hcfg', <- app_assoc. reflexivity.
Qed.

(** C8.  [sendWebhook] calls the webhook for the attempts 1, 2, ... and
    for no more than retryAttempts of them; a 2xx response ends the loop at
    once with success; a non-2xx response or a rejected fetch (the timeout
    among them) is a failed attempt; when all retryAttempts attempts fail
    the delivery fails, [sendAlert] reports it by emitting [alertFailed]
    and returns with the service as enabled and configured as before, and
    which later events reach the webhook is the same as if the delivery
    had succeeded. *)
Theorem webhook_attempts_bounded_failure_reported :
  (forall cfg fetch,
      exists k, (k <= Z.to_nat (retryAttempts cfg))%nat
                /\ calls (sendWebhook cfg fetch) = seq 1 k)
  /\ (forall cfg fetch k status,
         (1 <= k)%nat -> Z.of_nat k <= retryAttempts cfg ->
         (forall j, (1 <= j < k)%nat -> failedAttempt (fetch j)) ->
         fetch k = Response status -> ok status = true ->
         delivered (sendWebhook cfg fetch) = true
         /\ calls (sendWebhook cfg fetch) = seq 1 k)
  /\ (forall cfg fetch,
         (forall j, (1 <= j <= Z.to_nat (retryAttempts cfg))%nat ->
                    failedAttempt (fetch j)) ->
         delivered (sendWebhook cfg fetch) = false
         /\ calls (sendWebhook cfg fetch) = seq 1 (Z.to_nat (retryAttempts cfg)))
  /\ (forall s now fetch event,
         passes s now event = true ->
         delivered (sendWebhook (config s) fetch) = false ->
         emitted (fst (sendAlert s now fetch event))
         = (emitted s ++ [alertFailed event])%list
         /\ isEnabled (fst (sendAlert s now fetch event)) = isEnabled s
         /\ config (fst (sendAlert s now fetch event)) = config s)
  /\ (forall s now fetch fetch' event now2 fetch2 event2,
         let failed := fst (sendAlert s now fetch event) in
         let sent := fst (sendAlert s now fetch' event) in
         is_Some (snd (sendAlert failed now2 fetch2 event2))
         <-> is_Some (snd (sendAlert sent now2 fetch2 event2)))
  /\ (forall s batch,
         isEnabled s = true ->
         webhookUrl (config s) <> EmptyString ->
         thr_enabled (throttling (config s)) = false ->
         emitted (dispatch s batch)
         = (emitted s
            ++ map (fun x : Z * (nat -> FetchResult) * ProcessedEvent =>
                      if negb (toISOStringThrows (timestamp (snd x)))
                         && delivered (sendWebhook (config s) (snd (fst x)))
                      then alertSent (snd x) else alertFailed (snd x)) batch)%list).
Proof.
  split; [|split; [|split; [|split; [|split;
    [|intros s batch; apply dispatch_unthrottled]]]]].
  - intros cfg fetch. apply sendWebhookFrom_calls.
  - intros cfg fetch k status Hk Hle Hfail Hfetch Hok.
    destruct k as [|k]; [lia|].
    apply (sendWebhookFrom_succeeds fetch (retryAttempts cfg) _ 1 k status);
      [lia | intros j Hj; apply Hfail; lia | done | done].
  - intros cfg fetch Hfail. apply sendWebhookFrom_exhausted.
    intros j Hj. apply Hfail. lia.
  - intros s now fetch event Hpass Hfail.
    destruct (sendAlert_passes s now fetch event Hpass) as (_ & Hem & _).
    rewrite Hfail in Hem.
    destruct (sendAlert_keeps_service s now fetch event) as [Hen Hcfg]. done.
  - intros s now fetch fetch' event now2 fetch2 event2 failed sent.
    destruct (sendAlert_keeps_service s now fetch event) as [Hen Hcfg].
    destruct (sendAlert_keeps_service s now fetch' event) as [Hen' Hcfg'].
    destruct (sendAlert_decides_alike s s now fetch fetch' event
                eq_refl eq_refl eq_refl) as [Hmap _].
    apply (sendAlert_decides_alike failed sent now2 fetch2 fetch2 event2);
      subst failed sent; congruence.
Qed.

Lemma webhook_attempts_bounded_failure_reported_witness :
  let cfg := {| enabled := true; webhookUrl := "http://hooks.example/alert";
                timeout := 5000; retryAttempts := 3; retryDelay := 1000;
                throttling := scenarioConfig |} in
  let fetch := fun attempt : nat =>
                 if (attempt <? 3)%nat then Response 503 else Response 200 in
  delivered (sendWebhook cfg fetch) = true
  /\ calls (sendWebhook cfg fetch) = [1; 2; 3]%nat.
Proof.
  intros cfg fetch.
  destruct webhook_attempts_bounded_failure_reported as (_ & Hsucc & _).
  apply (Hsucc cfg fetch 3%nat 200).
  - lia.
  - simpl. lia.
  - intros j Hj. assert (j = 1 \/ j = 2)%nat as [-> | ->] by lia; reflexivity.
  - reflexivity.
  - reflexivity.
Defined.



End DeliveryFacts.

(* ===================================================================== *)
(** * Strings: prefixes, occurrences, pieces                              *)
(* ===================================================================== *)

Section StringFacts.

Lemma stripPrefix_app p r : JS.stripPrefix p (p +:+ r) = Some r.
Proof.
  induction p as [|a p IH]; simpl; [by destruct r|].
  by rewrite Ascii.eqb_refl.
Qed.

Lemma stripPrefix_Some p s r : JS.stripPrefix p s = Some r -> s = p +:+ r.
Proof.
  revert s. induction p as [|a p IH]; intros s H; simpl in *.
  - destruct s; congruence.
  - destruct s as [|b s]; [discriminate|].
    destruct (Ascii.eqb_spec a b) as [->|]; [|discriminate].
    simpl. f_equal. by apply IH.
Qed.

Lemma startsWith_true p s : JS.startsWith p s = true <-> exists r, s = p +:+ r.
Proof.
  unfold JS.startsWith. split.
  - destruct (JS.stripPrefix p s) as [r|] eqn:E; [|discriminate].
    intros _. exists r. by apply stripPrefix_Some.
  - intros [r ->]. by rewrite stripPrefix_app.
Qed.

Lemma append_empty_r (a : string) : a +:+ EmptyString = a.
Proof. induction a as [|x a IH]; simpl; [reflexivity | by rewrite IH]. Qed.

Lemma split_nonempty sep s : JS.split sep s <> [].
Proof.
  destruct s as [|c s]; simpl; [done|].
  destruct (Ascii.eqb c sep); [done|]. by destruct (JS.split sep s).
Qed.

(** A separator in the text ends one piece and begins the next. *)
Lemma split_app sep a b :
  JS.split sep (a +:+ String sep b) = (JS.split sep a ++ JS.split sep b)%list.
Proof.
  induction a as [|c a IH]; simpl.
  - by rewrite Ascii.eqb_refl.
  - rewrite IH. destruct (Ascii.eqb c sep); [reflexivity|].
    pose proof (split_nonempty sep a).
    by destruct (JS.split sep a).
Qed.

Lemma includes_char_false c x s :
  JS.includes (String c EmptyString) (String x s) = false ->
  Ascii.eqb x c = false /\ JS.includes (String c EmptyString) s = false.
Proof.
  simpl. unfold JS.startsWith. simpl.
  rewrite (Ascii.eqb_sym c x).
  destruct (Ascii.eqb x c); [by destruct s|]. done.
Qed.

(** Text without the separator is one piece. *)
Lemma split_one sep s :
  JS.includes (String sep EmptyString) s = false -> JS.split sep s = [s].
Proof.
  induction s as [|x s IH]; intros H; [reflexivity|].
  apply includes_char_false in H as [Hx Hs].
  simpl. rewrite Hx, (IH Hs). reflexivity.
Qed.

Lemma length_replaceNonAlnum s :
  String.length (JS.replaceNonAlnum s) = String.length s.
Proof. induction s as [|c s IH]; simpl; [reflexivity | by rewrite IH]. Qed.

Lemma get_replaceNonAlnum s i c :
  String.get i s = Some c ->
  String.get i (JS.replaceNonAlnum s)
  = Some (if JS.isLowerAlnum c then c else "_"%char).
Proof.
  revert i. induction s as [|x s IH]; intros i H; [discriminate|].
  destruct i as [|i]; simpl in *; [by injection H as -> | by apply IH].
Qed.

Lemma includes_step p x s :
  JS.includes p (String x s) = false ->
  JS.stripPrefix p (String x s) = None /\ JS.includes p s = false.
Proof.
  simpl. unfold JS.startsWith.
  destruct (JS.stripPrefix p (String x s)); [discriminate | done].
Qed.

Lemma includes_char_app c a b :
  JS.includes (String c EmptyString) (a +:+ String c b) = true.
Proof.
  induction a as [|x a IH]; simpl.
  - unfold JS.startsWith. simpl. by rewrite Ascii.eqb_refl.
  - by destruct (JS.startsWith _ _).
Qed.

(** A prefix of a concatenation lies within the first part, or covers it. *)
Lemma stripPrefix_app_cases p :
  forall x y r,
    JS.stripPrefix p (x +:+ y) = Some r ->
    (exists x2, x = p +:+ x2) \/ (exists q, p = x +:+ q /\ y = q +:+ r).
Proof.
  induction p as [|a p IH]; intros x y r H.
  - left. by exists x.
  - destruct x as [|b x].
    + right. exists (String a p). split; [reflexivity|].
      by apply stripPrefix_Some.
    + simpl in H. destruct (Ascii.eqb_spec a b) as [->|]; [|discriminate].
      destruct (IH x y r H) as [[x2 ->] | (q & -> & ->)].
      * left. by exists x2.
      * right. by exists q.
Qed.

Lemma cut_unfold p s :
  JS.cut p s
  = match JS.stripPrefix p s with
    | Some rest => Some (EmptyString, rest)
    | None =>
        match s with
        | EmptyString => None
        | String c s' =>
            match JS.cut p s' with
            | Some (before, after) => Some (String c before, after)
            | None => None
            end
        end
    end.
Proof. by destruct s. Qed.

Lemma cut_absent p s : JS.includes p s = false -> JS.cut p s = None.
Proof.
  induction s as [|x s IH]; intros H; rewrite cut_unfold.
  - simpl in H. unfold JS.startsWith in H.
    by destruct (JS.stripPrefix p EmptyString).
  - apply includes_step in H as [Hx Hs]. by rewrite Hx, (IH Hs).
Qed.

(** The first occurrence of [p] in [x +:+ p +:+ r], when [x] holds none. *)
Lemma cut_found p x r :
  JS.headOnce p = true ->
  JS.includes p x = false ->
  JS.cut p (x +:+ p +:+ r) = Some (x, r).
Proof.
  intros Hhead. induction x as [|b x IH]; intros Hno.
  - destruct p as [|c p']; [discriminate|].
    change (EmptyString +:+ String c p' +:+ r) with (String c p' +:+ r).
    by rewrite cut_unfold, stripPrefix_app.
  - apply includes_step in Hno as [Hb Hx].
    change (String b x +:+ p +:+ r) with (String b (x +:+ p +:+ r)).
    assert (JS.stripPrefix p (String b (x +:+ p +:+ r)) = None) as Hnone.
    { destruct (JS.stripPrefix p (String b (x +:+ p +:+ r))) as [r'|] eqn:E;
        [|reflexivity].
      exfalso.
      destruct (stripPrefix_app_cases p (String b x) (p +:+ r) r' E)
        as [[x2 Hx2] | (q & Hq & Hy)].
      - rewrite Hx2, stripPrefix_app in Hb. discriminate.
      - destruct p as [|c p']; [discriminate|].
        injection Hq as -> ->.
        destruct q as [|d q'].
        + rewrite append_empty_r in Hb.
          pose proof (stripPrefix_app (String b x) EmptyString) as Hself.
          rewrite append_empty_r in Hself. congruence.
        + injection Hy as -> _.
          unfold JS.headOnce in Hhead.
          by rewrite includes_char_app in Hhead. }
    by rewrite cut_unfold, Hnone, (IH Hx).
Qed.

End StringFacts.

(* ===================================================================== *)
(** * Classification: [extractEventType]                                  *)
(* ===================================================================== *)

Section ClassificationFacts.
Import EventService.

Lemma extractEventType_one_segment topic :
  topic <> EmptyString ->
  JS.includes "/" topic = false ->
  extractEventType topic = JS.replaceNonAlnum (JS.toLowerCase topic).
Proof.
  intros Hne Hno. unfold extractEventType.
  apply String.eqb_neq in Hne. rewrite Hne.
  by rewrite (split_one "/" topic Hno).
Qed.

Lemma extractEventType_last_segment pre seg :
  JS.includes "/" seg = false ->
  extractEventType (pre +:+ "/" +:+ seg)
  = if (JS.includes "people" (JS.toLowerCase seg)
        || JS.includes "human" (JS.toLowerCase seg)
        || JS.includes "person" (JS.toLowerCase seg))%bool
    then "peopledetection"
    else if (JS.includes "object" (JS.toLowerCase seg)
             && JS.includes "analytics" (JS.toLowerCase (pre +:+ "/" +:+ seg)))%bool
    then "objectdetection"
    else JS.replaceNonAlnum (JS.toLowerCase seg).
Proof.
  intros Hno. unfold extractEventType.
  assert (String.eqb (pre +:+ "/" +:+ seg) EmptyString = false) as ->.
  { apply String.eqb_neq. by destruct pre. }
  assert (JS.split "/" (pre +:+ "/" +:+ seg) = (JS.split "/" pre ++ [seg])%list) as ->.
  { change (pre +:+ "/" +:+ seg) with (pre +:+ String "/" seg).
    by rewrite split_app, (split_one "/" seg Hno). }
  assert ((2 <=? length (JS.split "/" pre ++ [seg]))%nat = true) as ->.
  { apply Nat.leb_le. rewrite length_app. simpl.
    pose proof (split_nonempty "/" pre). destruct (JS.split "/" pre); [done|].
    simpl. lia. }
  by rewrite List.last_last.
Qed.

(** C4 as the claim words it.  A topic with no path separator is not
    mapped to 'unknown': it is lowercased whole, with its characters
    outside [a-z0-9] replaced. *)
Lemma no_separator_is_not_unknown :
  JS.includes "/" "MotionAlarm" = false
  /\ extractEventType "MotionAlarm" = "motionalarm"
  /\ extractEventType "MotionAlarm" <> "unknown".
Proof. repeat split; try reflexivity. discriminate. Qed.

(** C4 (amended).  The empty topic gives 'unknown'.  A topic with a path
    separator is classified by its last segment, case-insensitively:
    'peopledetection' when the segment contains "people", "human" or
    "person"; else 'objectdetection' when it contains "object" and the
    whole topic contains "analytics"; else the segment lowercased with each
    character outside [a-z0-9] replaced by one '_' (a run of n such
    characters gives n underscores).  A topic that is not empty and has no
    path separator is lowercased whole with the same replacement, and is
    not looked up for "people", "human", "person" or "object". *)
Theorem extractEventType_by_cases :
  extractEventType EmptyString = "unknown"
  /\ (forall pre seg,
         JS.includes "/" seg = false ->
         extractEventType (pre +:+ "/" +:+ seg)
         = if (JS.includes "people" (JS.toLowerCase seg)
               || JS.includes "human" (JS.toLowerCase seg)
               || JS.includes "person" (JS.toLowerCase seg))%bool
           then "peopledetection"
           else if (JS.includes "object" (JS.toLowerCase seg)
                    && JS.includes "analytics"
                         (JS.toLowerCase (pre +:+ "/" +:+ seg)))%bool
           then "objectdetection"
           else JS.replaceNonAlnum (JS.toLowerCase seg))
  /\ (forall topic,
         topic <> EmptyString ->
         JS.includes "/" topic = false ->
         extractEventType topic = JS.replaceNonAlnum (JS.toLowerCase topic))
  /\ (forall s,
         String.length (JS.replaceNonAlnum s) = String.length s
         /\ forall i c,
              String.get i s = Some c ->
              String.get i (JS.replaceNonAlnum s)
              = Some (if JS.isLowerAlnum c then c else "_"%char))
  /\ extractEventType "tns1:RuleEngine/PeopleDetection" = "peopledetection"
  /\ extractEventType "tns1:VideoAnalytics/ObjectDetection" = "objectdetection"
  /\ extractEventType "tns1:VideoSource/MotionAlarm" = "motionalarm"
  /\ extractEventType "tns1:Recording/Job--State" = "job__state"
  /\ extractEventType "HumanDetection" = "humandetection".
Proof.
  split; [reflexivity|].
  split; [exact extractEventType_last_segment|].
  split; [exact extractEventType_one_segment|].
  split; [|repeat split; reflexivity].
  intros s. split; [apply length_replaceNonAlnum | apply get_replaceNonAlnum].
Qed.

Lemma extractEventType_by_cases_witness :
  extractEventType ("tns1:VideoSource" +:+ "/" +:+ "GlobalSceneChange/ImagingService"%string)
  = "imagingservice".
Proof.
  destruct extractEventType_by_cases as (_ & Hseg & _).
  exact (Hseg "tns1:VideoSource/GlobalSceneChange" "ImagingService" eq_refl).
Defined.

End ClassificationFacts.

(* ===================================================================== *)
(** * The push receiver: [handleHttpRequest]                              *)
(* ===================================================================== *)

Section ReceiverFacts.
Import EventService.






(** The loop of [processEventNotification] ends at the first event whose
    [UtcTime] does not parse: [toISOString] throws there, and the events
    parsed from the blocks behind it are not emitted.  The response is the
    same 200. *)
Lemma unparsable_time_ends_the_loop :
  let strict := {| now := fun _ => 1700000000000; random := fun _ => "k3j9x0q2a";
                   listenerThrows := fun _ _ => false;
                   sourceItems := fun _ => "{}";
                   parsesAsDate := fun _ => false;
                   thrown := fun _ _ => Logger.Serialisable;
                   logLevel := Some Logger.info |} in
  let block := openTag
               +:+ "<wsnt:Topic>tns1:VideoSource/MotionAlarm</wsnt:Topic>"
               +:+ "<tt:Message UtcTime=" +:+ JS.dquote +:+ "soon" +:+ JS.dquote +:+ ">"
               +:+ closeTag in
  let req := {| method := "POST"; pathname := Some "/events/1700000000000";
                body := block +:+ block |} in
  length (parseEventXml strict (body req)) = 2%nat
  /\ eventCounter (fst (handleHttpRequest strict false req started)) = 1
  /\ (fst <$> emitted (fst (handleHttpRequest strict false req started)))
     = ["event"; "motionalarm"]
  /\ (statusCode <$> snd (handleHttpRequest strict false req started)) = Some 200.
Proof. vm_compute. repeat split; reflexivity. Qed.


End ReceiverFacts.

(* ===================================================================== *)
(** * The poll loop: [pollForEvents]                                      *)
(* ===================================================================== *)

Section PollingFacts.
Import EventService.

(** The poll loop touches the event counter and the record of invocations
    only, and throws exactly when a listener does. *)
Lemma emitPolled_fields env events :
  forall k s,
    let s' := fst (emitPolled env k events s) in
    polling s' = polling s /\ isRunning s' = isRunning s
    /\ retryCount s' = retryCount s /\ subscriptionActive s' = subscriptionActive s
    /\ gateway s' = gateway s /\ inFlight s' = inFlight s.
Proof.
  induction events as [|e rest IH]; intros k s; simpl; [repeat split|].
  destruct (listenerThrows env "event" (processPolledEvent env k e));
    simpl; [repeat split|].
  destruct (listenerThrows env _ (processPolledEvent env k e));
    simpl; [repeat split|].
  match goal with
  | |- context [emitPolled env (S k) rest ?s2] => pose proof (IH (S k) s2) as H
  end.
  exact H.
Qed.

Lemma emitPolled_threw env events :
  forall k s, snd (emitPolled env k events s) = thrownOn env k events.
Proof.
  induction events as [|e rest IH]; intros k s; simpl; [reflexivity|].
  destruct (listenerThrows env "event" (processPolledEvent env k e));
    simpl; [reflexivity|].
  destruct (listenerThrows env _ (processPolledEvent env k e));
    simpl; [reflexivity|].
  apply IH.
Qed.

Lemma throwsOn_thrownOn env events :
  forall k, throwsOn env k events
            = match thrownOn env k events with Some _ => true | None => false end.
Proof.
  induction events as [|e rest IH]; intros k; [reflexivity|].
  cbn [throwsOn thrownOn].
  destruct (listenerThrows env "event" (processPolledEvent env k e));
    [reflexivity|].
  destruct (listenerThrows env _ (processPolledEvent env k e)); [reflexivity|].
  apply IH.
Qed.

Lemma pollFails_pollError env result :
  pollFails env result
  = match pollError env result with Some _ => true | None => false end.
Proof. destruct result; [apply throwsOn_thrownOn | reflexivity]. Qed.

(** While the subscription is not active a poll cycle does nothing. *)
Lemma pollForEvents_inactive env result created s :
  subscriptionActive s = false -> pollForEvents env result created s = s.
Proof.
  intros H. unfold pollForEvents, pollStart. rewrite H.
  destruct (polling s); [|reflexivity]. by destruct (isRunning s).
Qed.

(** What the [try] block of a cycle leaves when it is resumed: the state
    differs in the event counter and the invocations only, and the value
    thrown is the cycle's error. *)
Lemma try_block env result s1 :
  exists s2,
    match result with
    | PullRejected => (s1, Some Logger.Serialisable)
    | Pulled events =>
        let '(s, threw) := emitPolled env 0 events s1 in
        match threw with
        | Some error => (s, Some error)
        | None => (setRetryCount 0 s, None)
        end
    end = (match pollError env result with
           | Some _ => s2
           | None => setRetryCount 0 s2
           end, pollError env result)
    /\ polling s2 = polling s1 /\ isRunning s2 = isRunning s1
    /\ retryCount s2 = retryCount s1 /\ subscriptionActive s2 = subscriptionActive s1
    /\ gateway s2 = gateway s1 /\ inFlight s2 = inFlight s1.
Proof.
  destruct result as [events|]; cbn [pollError].
  - pose proof (emitPolled_threw env events 0 s1) as Hthrew.
    pose proof (emitPolled_fields env events 0 s1) as Hfields.
    destruct (emitPolled env 0 events s1) as [s2 threw]. cbn [fst snd] in *.
    subst threw. exists s2. split; [|exact Hfields].
    by destruct (thrownOn env 0 events).
  - exists s1. by repeat split.
Qed.

Lemma pollStart_Some s s1 :
  pollStart s = Some s1 -> s1 = setInFlight (S (inFlight s)) (call pullMessages s).
Proof.
  unfold pollStart. destruct (polling s); [|discriminate].
  destruct (isRunning s); [|discriminate].
  destruct (subscriptionActive s); [|discriminate].
  by intros [= <-].
Qed.

(** A cycle that settles is no longer in flight, whatever became of it;
    the settings and the running flag are not touched. *)
Lemma pollResume_keeps env result created s :
  inFlight (pollResume env result created s) = Nat.pred (inFlight s)
  /\ polling (pollResume env result created s) = polling s
  /\ isRunning (pollResume env result created s) = isRunning s.
Proof.
  unfold pollResume. cbv zeta.
  destruct (try_block env result (setInFlight (Nat.pred (inFlight s)) s))
    as (s2 & -> & Hp & Hrun & _ & _ & _ & Hfl).
  cbn [polling isRunning inFlight setInFlight] in Hp, Hrun, Hfl.
  rewrite <- Hp, <- Hrun, <- Hfl.
  destruct (pollError env result) as [error|]; [|by cbn].
  destruct (polling s2) as [p|] eqn:Hp2; [|by rewrite Hp2].
  destruct (isRunning s2) eqn:Hrun2; cbn [negb]; [|by rewrite Hp2, Hrun2].
  cbn [retryCount setRetryCount].
  destruct (_ && _)%bool.
  - destruct (Logger.log _ Logger.warn error); [by cbn|].
    destruct (_ >=? _); [|by cbn].
    unfold createPullPointSubscription. cbv zeta.
    destruct created; [by cbn|].
    cbn. rewrite Hp2. by destruct (negb (retryOnError p)); cbn.
  - by destruct (Logger.log _ Logger.error error); cbn.
Qed.


(** ** Schedules *)

(** On the serial schedule a cycle runs from its call to its return. *)
Lemma run_serial_cons env o rest s :
  inFlight s = 0%nat ->
  run env (serial (o :: rest)) s
  = run env (serial rest) (pollForEvents env (fst o) (snd o) s).
Proof.
  intros Hfl. unfold run, serial. cbn [flat_map app fold_left]. f_equal.
  unfold step, pollForEvents.
  destruct (pollStart s) as [s1|] eqn:E; [|by rewrite Hfl].
  apply pollStart_Some in E. subst s1. reflexivity.
Qed.

Lemma pollForEvents_inFlight env result created s :
  inFlight (pollForEvents env result created s) = inFlight s.
Proof.
  unfold pollForEvents. destruct (pollStart s) as [s1|] eqn:E; [|reflexivity].
  apply pollStart_Some in E. subst s1.
  by destruct (pollResume_keeps env result created
                 (setInFlight (S (inFlight s)) (call pullMessages s))) as [-> _].
Qed.

(** With the subscription inactive and no cycle in flight, nothing the
    timer does changes the service: a tick leaves [pollForEvents] at its
    guard, and there is nothing to settle. *)
Lemma run_inactive_idle env es :
  forall s,
    subscriptionActive s = false -> inFlight s = 0%nat -> run env es s = s.
Proof.
  unfold run. induction es as [|e es IH]; intros s Hact Hfl; [reflexivity|].
  cbn [fold_left].
  assert (step env s e = s) as ->; [|by apply IH].
  destruct e as [|result created]; cbn [step].
  - unfold pollStart. rewrite Hact.
    destruct (polling s); [|reflexivity]. by destruct (isRunning s).
  - by rewrite Hfl.
Qed.





(** ** Overlapping cycles *)

(** C3 as the claim words it.  Nothing in [startEventPolling] or
    [pollForEvents] looks at whether an earlier cycle is still awaiting
    [pullMessages]: two ticks of the timer before the camera answers leave
    two invocations in flight, each with its own call to the camera. *)
Lemma two_cycles_in_flight :
  inFlight (run quietEnv [Tick; Tick] started) = 2%nat
  /\ gateway (run quietEnv [Tick; Tick] started)
     = [createPullPoint; pullMessages; pullMessages]
  /\ ~ (inFlight (run quietEnv [Tick; Tick] started) <= 1)%nat.
Proof. repeat split; try reflexivity. simpl. lia. Qed.

Lemma pollStart_active s :
  polling s <> None -> isRunning s = true -> subscriptionActive s = true ->
  pollStart s = Some (setInFlight (S (inFlight s)) (call pullMessages s)).
Proof.
  intros Hp Hrun Hact. unfold pollStart. rewrite Hrun, Hact.
  by destruct (polling s).
Qed.

(** C3 (amended).  While the service runs in polling mode with an active
    subscription, every tick of the pull timer starts a poll cycle with its
    own [pullMessages] call, whether or not earlier cycles are still in
    flight: n ticks before any answer leave n more invocations in flight.
    A tick does nothing only when the service is not running or the
    subscription is not active. *)
Theorem every_tick_starts_a_cycle env s n :
  polling s <> None -> isRunning s = true -> subscriptionActive s = true ->
  inFlight (run env (repeat Tick n) s) = (inFlight s + n)%nat
  /\ gateway (run env (repeat Tick n) s)
     = (gateway s ++ repeat pullMessages n)%list
  /\ (forall s', step env s' Tick = s'
                 <-> polling s' = None \/ isRunning s' = false
                     \/ subscriptionActive s' = false).
Proof.
  intros Hp Hrun Hact. split; [|split].
  - revert s Hp Hrun Hact. induction n as [|n IH]; intros s Hp Hrun Hact.
    + simpl. lia.
    + change (run env (repeat Tick (S n)) s)
        with (run env (repeat Tick n) (step env s Tick)).
      unfold step. rewrite pollStart_active by done.
      rewrite IH by done. simpl. lia.
  - revert s Hp Hrun Hact. induction n as [|n IH]; intros s Hp Hrun Hact.
    + simpl. by rewrite app_nil_r.
    + change (run env (repeat Tick (S n)) s)
        with (run env (repeat Tick n) (step env s Tick)).
      unfold step. rewrite pollStart_active by done.
      rewrite IH by done. simpl. by rewrite <- app_assoc.
  - intros s'. unfold step, pollStart.
    destruct (polling s') as [p'|]; [|by split; auto].
    destruct (isRunning s'); simpl; [|by split; auto].
    destruct (subscriptionActive s'); simpl; [|by split; auto].
    split.
    + intros E. apply (f_equal inFlight) in E. simpl in E. lia.
    + intros [H | [H | H]]; discriminate.
Qed.

Lemma every_tick_starts_a_cycle_witness :
  inFlight (run quietEnv (repeat Tick 3) started) = 3%nat.
Proof.
  destruct (every_tick_starts_a_cycle quietEnv started 3) as [Hfl _];
    [discriminate | reflexivity | reflexivity |].
  exact Hfl.
Defined.

End PollingFacts.

(* ===================================================================== *)
(** * The normalizer: [parseEventXml]                                     *)
(* ===================================================================== *)

Section ParsingFacts.
Import EventService.

Lemma length_append (a b : string) :
  String.length (a +:+ b) = (String.length a + String.length b)%nat.
Proof. induction a as [|x a IH]; simpl; [reflexivity | by rewrite IH]. Qed.

Lemma cut_length p s before after :
  JS.cut p s = Some (before, after) ->
  String.length s = (String.length before + String.length p + String.length after)%nat.
Proof.
  revert before. induction s as [|x s IH]; intros before; rewrite cut_unfold.
  - destruct (JS.stripPrefix p EmptyString) as [r|] eqn:E; [|discriminate].
    intros [= <- <-]. apply stripPrefix_Some in E.
    rewrite E at 1. by rewrite length_append.
  - destruct (JS.stripPrefix p (String x s)) as [r|] eqn:E.
    + intros [= <- <-]. apply stripPrefix_Some in E.
      rewrite E at 1. by rewrite length_append.
    + destruct (JS.cut p s) as [[b a]|] eqn:Ecut; [|discriminate].
      intros [= <- <-]. simpl. rewrite (IH b eq_refl). lia.
Qed.

Lemma matchNotificationMessages_unfold fuel xmlBody :
  matchNotificationMessages (S fuel) xmlBody
  = match JS.cut openTag xmlBody with
    | None => []
    | Some (_, afterOpen) =>
        match JS.cut closeTag afterOpen with
        | None => []
        | Some (inner, rest) =>
            (openTag +:+ inner +:+ closeTag) :: matchNotificationMessages fuel rest
        end
    end.
Proof. reflexivity. Qed.

(** The length of the payload is fuel enough: more fuel finds no more. *)
Lemma matchNotificationMessages_fuel f1 :
  forall f2 xmlBody,
    (String.length xmlBody <= f1)%nat -> (String.length xmlBody <= f2)%nat ->
    matchNotificationMessages f1 xmlBody = matchNotificationMessages f2 xmlBody.
Proof.
  induction f1 as [|f1 IH]; intros f2 xmlBody H1 H2.
  - destruct xmlBody; [|simpl in H1; lia]. by destruct f2.
  - destruct f2 as [|f2]; [destruct xmlBody; [reflexivity | simpl in H2; lia]|].
    rewrite !matchNotificationMessages_unfold.
    destruct (JS.cut openTag xmlBody) as [[before afterOpen]|] eqn:E1; [|reflexivity].
    destruct (JS.cut closeTag afterOpen) as [[inner rest]|] eqn:E2; [|reflexivity].
    apply cut_length in E1. apply cut_length in E2.
    change (String.length openTag) with 26%nat in E1.
    f_equal. apply IH; lia.
Qed.

(** Likewise for the retries of the topic pattern. *)
Lemma matchTopic_fuel f1 :
  forall f2 messageXml,
    (String.length messageXml <= f1)%nat -> (String.length messageXml <= f2)%nat ->
    matchTopic f1 messageXml = matchTopic f2 messageXml.
Proof.
  induction f1 as [|f1 IH]; intros f2 messageXml H1 H2.
  - destruct messageXml; [|simpl in H1; lia]. by destruct f2.
  - destruct f2 as [|f2]; [destruct messageXml; [reflexivity | simpl in H2; lia]|].
    cbn [matchTopic].
    destruct (JS.cut "<wsnt:Topic" messageXml) as [[before afterName]|] eqn:E1;
      [|reflexivity].
    destruct (JS.cut ">" afterName) as [[attrs afterTag]|]; [|reflexivity].
    destruct (JS.cut "</wsnt:Topic>" afterTag) as [[inner rest]|]; [|reflexivity].
    destruct (JS.hasLineTerminator inner); [|reflexivity].
    apply cut_length in E1. simpl in E1. apply IH; lia.
Qed.





(** The ids are as distinct as the clock readings and random draws they
    are made of: with both repeating, two events share an id. *)
Lemma ids_coincide_when_draws_do :
  let frozen := {| now := fun _ => 1700000000000; random := fun _ => "k3j9x0q2a";
                   listenerThrows := fun _ _ => false;
                   sourceItems := fun _ => "{}";
                   parsesAsDate := fun _ => true;
                   thrown := fun _ _ => Logger.Serialisable;
                   logLevel := Some Logger.info |} in
  (id <$> parseEventXml frozen (envelope [("a", "b"); ("c", "d")]))
  = [ {| id_time := 1700000000000; id_suffix := "k3j9x0q2a" |};
      {| id_time := 1700000000000; id_suffix := "k3j9x0q2a" |} ].
Proof. vm_compute. reflexivity. Qed.



End ParsingFacts.

(* ===================================================================== *)
(** * The throttle map over any run                                       *)
(* ===================================================================== *)

Section ThrottleMapFacts.
Import AlertService Throttle.

Lemma onRecord_count_range cfg T o :
  0 <= maxAlertsPerWindow cfg ->
  (forall r, o = Some r -> 0 <= count r <= maxAlertsPerWindow cfg) ->
  0 <= count (snd (onRecord cfg T o)) <= maxAlertsPerWindow cfg.
Proof.
  intros Hmax Ho. unfold onRecord. cbv zeta.
  set (r0 := match o with
             | Some r => r
             | None => {| count := 0; windowStart := T; lastEventTime := 0;
                          debounceTimer := None |}
             end).
  assert (0 <= count r0 <= maxAlertsPerWindow cfg) as H0.
  { subst r0. destruct o as [r|]; [by apply Ho | simpl; lia]. }
  clearbody r0.
  destruct (T - windowStart r0 >=? windowMs cfg); simpl;
    rewrite Z.geb_leb;
    (match goal with
     | |- context [?a <=? ?b] => destruct (Z.leb_spec a b)
     end; simpl; [lia|]);
    (match goal with
     | |- context [if ?b then _ else _] => destruct b
     end; simpl; lia).
Qed.

(** X1.  Whatever the clock reads and in whatever order the events come,
    no call of [shouldSendAlert] takes a record's [count] below 0 or above
    maxAlertsPerWindow. *)
Theorem counts_stay_in_range cfg arrivals (m : gmap string ThrottleRecord) :
  0 <= maxAlertsPerWindow cfg ->
  countsInRange cfg m ->
  countsInRange cfg (snd (throttle cfg arrivals m)).
Proof.
  intros Hmax. revert m.
  induction arrivals as [|[c t] rest IH]; intros m Hm; [exact Hm|].
  rewrite throttle_cons_snd. apply IH.
  intros c' r Hr. destruct (decide (c = c')) as [->|Hne].
  - rewrite shouldSendAlert_same in Hr. injection Hr as <-.
    apply onRecord_count_range; [done|]. intros r0 Hr0. by apply (Hm c').
  - rewrite shouldSendAlert_other in Hr by done. by apply (Hm c').
Qed.

Lemma counts_stay_in_range_witness :
  countsInRange scenarioConfig (snd (throttle scenarioConfig (scenario 0) ∅)).
Proof.
  apply (counts_stay_in_range scenarioConfig (scenario 0) ∅).
  - simpl. lia.
  - intros c r Hr. rewrite lookup_empty in Hr. discriminate.
Defined.

(** X2.  The throttle map holds a record for exactly the event types it
    had before and the types of the arrivals since: a record is made at
    the first arrival of a type and none is ever dropped. *)
Theorem records_are_the_types_seen cfg arrivals (m : gmap string ThrottleRecord) :
  dom (snd (throttle cfg arrivals m))
  = (list_to_set (fst <$> arrivals) ∪ dom m : gset string).
Proof.
  revert m. induction arrivals as [|[c t] rest IH]; intros m.
  - simpl. by rewrite (left_id_L ∅ (∪)).
  - rewrite throttle_cons_snd, IH, shouldSendAlert_onRecord. cbn [snd].
    rewrite dom_insert_L, fmap_cons, list_to_set_cons. cbn [fst].
    rewrite (assoc_L (∪)), (comm_L (∪) (list_to_set _) {[c]}). reflexivity.
Qed.

(** X3.  The event types are throttled apart: which arrivals of a type are
    admitted, and the record the type ends with, are the same as if the
    arrivals of every other type had never come. *)
Theorem types_are_throttled_apart cfg c arrivals (m : gmap string ThrottleRecord) :
  admittedTimes cfg c arrivals m = admittedTimes cfg c (ofType c arrivals) m
  /\ snd (throttle cfg arrivals m) !! c
     = snd (throttle cfg (ofType c arrivals) m) !! c.
Proof.
  assert (forall arrivals (m m' : gmap string ThrottleRecord),
             m !! c = m' !! c ->
             admittedTimes cfg c arrivals m = admittedTimes cfg c (ofType c arrivals) m'
             /\ snd (throttle cfg arrivals m) !! c
                = snd (throttle cfg (ofType c arrivals) m') !! c) as H.
  { clear arrivals m. induction arrivals as [|[c' t] rest IH]; intros m m' Hm; [done|].
    unfold ofType. cbn [List.filter fst].
    destruct (String.eqb_spec c' c) as [->|Hne].
    - fold (ofType c rest).
      rewrite !admittedTimes_cons, !throttle_cons_snd, !shouldSendAlert_onRecord.
      cbn [fst snd]. rewrite Hm.
      destruct (IH (<[c := snd (onRecord cfg t (m' !! c))]> m)
                   (<[c := snd (onRecord cfg t (m' !! c))]> m')) as [-> ->];
        [by rewrite !lookup_insert_eq | done].
    - fold (ofType c rest).
      rewrite admittedTimes_cons, throttle_cons_snd.
      apply String.eqb_neq in Hne as Hneb. rewrite Hneb, andb_false_r. simpl.
      apply IH. by rewrite shouldSendAlert_other. }
  by apply H.
Qed.

(** An invariant of the record of type [c] that every call in clock order
    keeps, is kept by a run in clock order. *)
Lemma throttle_keeps_in_clock_order cfg c (I : option ThrottleRecord -> Z -> Prop) :
  (forall o lo lo', lo <= lo' -> I o lo -> I o lo') ->
  (forall o lo T, lo <= T -> I o lo -> I (Some (snd (onRecord cfg T o))) T) ->
  forall arrivals (m : gmap string ThrottleRecord) lo,
    nondecreasing (lo :: map snd arrivals) = true ->
    I (m !! c) lo ->
    exists lo', I (snd (throttle cfg arrivals m) !! c) lo'.
Proof.
  intros Hlater Hstep.
  induction arrivals as [|[c' t] rest IH]; intros m lo Hsorted Hm; [by exists lo|].
  cbn [map snd nondecreasing] in Hsorted.
  apply andb_prop in Hsorted as [Hlo Hsorted]. apply Z.leb_le in Hlo.
  rewrite throttle_cons_snd. apply (IH _ t); [done|].
  destruct (String.eqb_spec c' c) as [->|Hne].
  - rewrite shouldSendAlert_same. by apply (Hstep _ lo).
  - rewrite shouldSendAlert_other by done. by apply (Hlater _ lo).
Qed.

(** X4.  While the clock does not run backwards, a record's [windowStart]
    and [lastEventTime] only advance. *)
Theorem record_times_only_advance cfg c arrivals (m : gmap string ThrottleRecord) r lo :
  m !! c = Some r ->
  windowStart r <= lo -> lastEventTime r <= lo ->
  nondecreasing (lo :: map snd arrivals) = true ->
  exists r',
    snd (throttle cfg arrivals m) !! c = Some r'
    /\ windowStart r <= windowStart r'
    /\ lastEventTime r <= lastEventTime r'.
Proof.
  intros Hr Hws Hlast Hsorted.
  destruct (throttle_keeps_in_clock_order cfg c
              (fun o lo => exists r', o = Some r'
                                      /\ windowStart r <= windowStart r' <= lo
                                      /\ lastEventTime r <= lastEventTime r' <= lo))
    with (arrivals := arrivals) (m := m) (lo := lo)
    as (lo' & r' & Hr' & Hws' & Hlast').
  - intros o l l' Hl (r' & -> & H1 & H2). exists r'. repeat split; lia.
  - intros o l T HT (r' & -> & H1 & H2). eexists. split; [reflexivity|].
    unfold onRecord. cbv zeta.
    repeat (match goal with
            | |- context [if ?b then _ else _] => destruct b
            end; simpl); lia.
  - done.
  - exists r. repeat split; try done; lia.
  - exists r'. repeat split; try done; lia.
Qed.

Lemma record_times_only_advance_witness :
  exists r',
    snd (throttle scenarioConfig (scenario 1000)
           {["motionalarm" := {| count := 1; windowStart := 500;
                                 lastEventTime := 500; debounceTimer := None |}]})
    !! "motionalarm" = Some r'
    /\ 500 <= windowStart r' /\ 500 <= lastEventTime r'.
Proof.
  apply (record_times_only_advance scenarioConfig "motionalarm" (scenario 1000)
           {["motionalarm" := {| count := 1; windowStart := 500;
                                 lastEventTime := 500; debounceTimer := None |}]}
           {| count := 1; windowStart := 500; lastEventTime := 500;
              debounceTimer := None |} 1000).
  - apply lookup_singleton_eq.
  - simpl. lia.
  - simpl. lia.
  - reflexivity.
Defined.

End ThrottleMapFacts.

(* ===================================================================== *)
(** * The alert service: status, reset, retries, counters                 *)
(* ===================================================================== *)

Section AlertServiceFacts.
Import AlertService Throttle.





(** X6.  The first event of a type that has no record is suppressed
    exactly when maxAlertsPerWindow is zero or less, whatever the clock
    reads and whatever the other settings are, so that every positive cap
    admits it; when admitted it leaves the record with count 1 and with
    the clock reading for its window start and its last admission.  After
    [clearThrottleRecords] that is so for every type. *)
Theorem unseen_type_is_admitted :
  (forall cfg now c (m : gmap string ThrottleRecord),
      m !! c = None ->
      (fst (shouldSendAlert cfg now c m) = false <-> maxAlertsPerWindow cfg <= 0)
      /\ (fst (shouldSendAlert cfg now c m) = true ->
          snd (shouldSendAlert cfg now c m) !! c
          = Some {| count := 1; windowStart := now; lastEventTime := now;
                    debounceTimer := None |}))
  /\ (forall s now c,
         fst (shouldSendAlert (throttling (config s)) now c
                (throttleMap (clearThrottleRecords s))) = false
         <-> maxAlertsPerWindow (throttling (config s)) <= 0).
Proof.
  assert (forall cfg now c (m : gmap string ThrottleRecord),
             m !! c = None ->
             (fst (shouldSendAlert cfg now c m) = false
              <-> maxAlertsPerWindow cfg <= 0)
             /\ (fst (shouldSendAlert cfg now c m) = true ->
                 snd (shouldSendAlert cfg now c m) !! c
                 = Some {| count := 1; windowStart := now; lastEventTime := now;
                           debounceTimer := None |})) as H.
  { intros cfg now c m Hm.
    rewrite shouldSendAlert_same, shouldSendAlert_onRecord, Hm. cbn [fst].
    unfold onRecord. cbv zeta. rewrite Z.sub_diag.
    destruct (0 >=? windowMs cfg); simpl;
      rewrite Z.geb_leb;
      destruct (Z.leb_spec (maxAlertsPerWindow cfg) 0); simpl;
      (split; [split; intros; first [done | lia] | intros; first [done | reflexivity]]). }
  split; [exact H|].
  intros s now c. apply H. simpl. apply lookup_empty.
Qed.

Lemma unseen_type_is_admitted_witness :
  snd (shouldSendAlert scenarioConfig (-5) "tamper"
         {["motionalarm" := {| count := 5; windowStart := 0; lastEventTime := 0;
                               debounceTimer := None |}]}) !! "tamper"
  = Some {| count := 1; windowStart := -5; lastEventTime := -5;
            debounceTimer := None |}.
Proof.
  destruct unseen_type_is_admitted as [H _].
  destruct (H scenarioConfig (-5) "tamper"
              {["motionalarm" := {| count := 5; windowStart := 0; lastEventTime := 0;
                                    debounceTimer := None |}]}) as [_ E];
    [reflexivity|].
  apply E. reflexivity.
Defined.

(** ** Retries *)

Lemma sendWebhookFrom_delays fetch retryAttempts n attempt :
  Z.of_nat attempt + Z.of_nat n = retryAttempts + 1 ->
  delays (sendWebhookFrom fetch retryAttempts n attempt)
  = Nat.pred (length (calls (sendWebhookFrom fetch retryAttempts n attempt))).
Proof.
  revert attempt. induction n as [|n IH]; intros attempt Hsum; simpl; [reflexivity|].
  destruct (match fetch attempt with Response status => ok status | Rejected => false end);
    simpl; [reflexivity|].
  rewrite IH by lia.
  destruct n as [|n].
  - simpl. destruct (Z.ltb_spec (Z.of_nat attempt) retryAttempts); [lia|reflexivity].
  - destruct (Z.ltb_spec (Z.of_nat attempt) retryAttempts); [|lia].
    simpl.
    destruct (match fetch (S attempt) with Response status => ok status | Rejected => false end);
      simpl; reflexivity.
Qed.

Lemma sendWebhookFrom_delivered fetch retryAttempts n attempt :
  delivered (sendWebhookFrom fetch retryAttempts n attempt) = true
  <-> exists k, (attempt <= k < attempt + n)%nat /\ succeeds (fetch k) = true.
Proof.
  revert attempt. induction n as [|n IH]; intros attempt; simpl.
  - split; [discriminate | intros (k & Hk & _); lia].
  - fold (succeeds (fetch attempt)).
    destruct (succeeds (fetch attempt)) eqn:E; simpl.
    + split; [|reflexivity]. intros _. exists attempt. split; [lia | exact E].
    + rewrite IH. split.
      * intros (k & Hk & Hs). exists k. split; [lia | exact Hs].
      * intros (k & Hk & Hs). exists k. split; [|exact Hs].
        destruct (decide (k = attempt)) as [->|]; [congruence | lia].
Qed.

(** X7.  [sendWebhook] waits retryDelay between two attempts and not after
    the last: the delays are one fewer than the calls, and none when no
    call is made; a retryAttempts of 0 or less makes no call at all and
    the delivery fails. *)
Theorem one_delay_between_attempts cfg fetch :
  delays (sendWebhook cfg fetch) = Nat.pred (length (calls (sendWebhook cfg fetch)))
  /\ (retryAttempts cfg <= 0 ->
      sendWebhook cfg fetch = {| delivered := false; calls := []; delays := 0 |}).
Proof.
  split.
  - unfold sendWebhook.
    destruct (Z.leb_spec 0 (retryAttempts cfg)).
    + apply sendWebhookFrom_delays. lia.
    + replace (Z.to_nat (retryAttempts cfg)) with 0%nat by lia. reflexivity.
  - intros Hle. unfold sendWebhook.
    replace (Z.to_nat (retryAttempts cfg)) with 0%nat by lia. reflexivity.
Qed.

Lemma one_delay_between_attempts_witness :
  sendWebhook {| enabled := true; webhookUrl := "http://hooks.example/alert";
                 timeout := 5000; retryAttempts := 0; retryDelay := 1000;
                 throttling := scenarioConfig |} (fun _ => Response 200)
  = {| delivered := false; calls := []; delays := 0 |}.
Proof.
  apply (one_delay_between_attempts
           {| enabled := true; webhookUrl := "http://hooks.example/alert";
              timeout := 5000; retryAttempts := 0; retryDelay := 1000;
              throttling := scenarioConfig |} (fun _ => Response 200)).
  simpl. lia.
Defined.

(** X8.  A delivery succeeds exactly when one of the attempts 1 to
    retryAttempts is answered with a 2xx status; [testWebhook] reports
    just that, for a service that is enabled or not, and throws only for
    want of a URL. *)
Theorem delivered_iff_some_attempt_succeeds s fetch :
  (delivered (sendWebhook (config s) fetch) = true
   <-> exists k, 1 <= Z.of_nat k <= retryAttempts (config s)
                 /\ succeeds (fetch k) = true)
  /\ (testWebhook s fetch = None <-> webhookUrl (config s) = EmptyString)
  /\ (testWebhook s fetch = Some true
      <-> webhookUrl (config s) <> EmptyString
          /\ exists k, 1 <= Z.of_nat k <= retryAttempts (config s)
                       /\ succeeds (fetch k) = true).
Proof.
  assert (delivered (sendWebhook (config s) fetch) = true
          <-> exists k, 1 <= Z.of_nat k <= retryAttempts (config s)
                        /\ succeeds (fetch k) = true) as Hdel.
  { unfold sendWebhook. rewrite sendWebhookFrom_delivered.
    split; intros (k & Hk & Hs); exists k; (split; [lia | exact Hs]). }
  split; [exact Hdel|].
  unfold testWebhook.
  destruct (String.eqb_spec (webhookUrl (config s)) EmptyString) as [E|E].
  - split; [by split|]. split; [discriminate | by intros [? _]].
  - split; [split; [discriminate | done]|].
    rewrite <- Hdel. split.
    + intros [= ->]. by split.
    + intros [_ ->]. reflexivity.
Qed.

(** ** Counters *)

Lemma sentCount_app l1 l2 : sentCount (l1 ++ l2) = sentCount l1 + sentCount l2.
Proof. unfold sentCount. rewrite List.filter_app, length_app. lia. Qed.

Lemma sendAlert_appends s now fetch event :
  exists new,
    emitted (fst (sendAlert s now fetch event)) = (emitted s ++ new)%list
    /\ alertCounter (fst (sendAlert s now fetch event)) = alertCounter s + sentCount new
    /\ (length new <= 1)%nat.
Proof.
  assert (forall s' : t,
             emitted s' = emitted s -> alertCounter s' = alertCounter s ->
             exists new, emitted s' = (emitted s ++ new)%list
                         /\ alertCounter s' = alertCounter s + sentCount new
                         /\ (length new <= 1)%nat) as Hnone.
  { intros s' -> ->. exists []. rewrite app_nil_r.
    unfold sentCount. simpl. repeat split; lia. }
  unfold sendAlert, sendAlertBegin, sendAlertEnd.
  destruct (isEnabled s); simpl; [|by apply Hnone].
  destruct (String.eqb _ _); simpl; [by apply Hnone|].
  destruct (if thr_enabled _ then _ else _) as [b m'].
  destruct b; simpl; [|by apply Hnone].
  destruct (toISOStringThrows _); simpl.
  { exists [alertFailed event]. unfold sentCount. simpl.
    split; [reflexivity | split; lia]. }
  destruct (delivered _); simpl;
    [exists [alertSent event] | exists [alertFailed event]];
    unfold sentCount; simpl; (split; [reflexivity | split; lia]).
Qed.

(** X9.  [alertCounter] counts the [alertSent] invocations and nothing else:
    over any batch of events the invocations are appended to, at most one
    per event, and the counter goes up by the number of [alertSent] among
    the new ones. *)
Theorem alertCounter_counts_alertSent batch :
  forall s,
    exists new,
      emitted (dispatch s batch) = (emitted s ++ new)%list
      /\ alertCounter (dispatch s batch) = alertCounter s + sentCount new
      /\ (length new <= length batch)%nat.
Proof.
  induction batch as [|[[now fetch] event] rest IH]; intros s; simpl.
  - exists []. rewrite app_nil_r. unfold sentCount. simpl. repeat split; lia.
  - destruct (sendAlert_appends s now fetch event) as (new1 & Hem1 & Hc1 & Hl1).
    destruct (IH (fst (sendAlert s now fetch event))) as (new2 & Hem2 & Hc2 & Hl2).
    exists (new1 ++ new2)%list.
    rewrite Hem2, Hc2, Hem1, Hc1, sentCount_app, length_app, <- app_assoc.
    repeat split; lia.
Qed.

(** X10.  A service that is disabled, or has no webhook URL, lets every
    event pass by: nothing is emitted, no throttle record is made or
    changed, no quota is used up. *)
Theorem disabled_service_ignores_events s batch :
  isEnabled s = false \/ webhookUrl (config s) = EmptyString ->
  dispatch s batch = s.
Proof.
  intros H. induction batch as [|[[now fetch] event] rest IH]; simpl; [reflexivity|].
  assert (sendAlert s now fetch event = (s, None)) as ->; [|exact IH].
  unfold sendAlert, sendAlertBegin.
  destruct H as [-> | ->]; [reflexivity|].
  by destruct (isEnabled s).
Qed.

Lemma disabled_service_ignores_events_witness :
  let s := disable
             {| config := {| enabled := true; webhookUrl := "http://hooks.example/alert";
                             timeout := 5000; retryAttempts := 3; retryDelay := 1000;
                             throttling := scenarioConfig |};
                alertCounter := 0; isEnabled := true; throttleMap := ∅;
                emitted := [] |} in
  let event := {| id := {| id_time := 1700000000000; id_suffix := "k3j9x0q2a" |};
                  timestamp := DateAt 1700000000000;
                  topic := "tns1:VideoSource/MotionAlarm"; source := "{}";
                  type := "motionalarm"; raw := RawXml EmptyString |} in
  dispatch s [(1700000000000, fun _ => Response 200, event)] = s.
Proof.
  intros s event.
  apply (disabled_service_ignores_events s). left. reflexivity.
Defined.

End AlertServiceFacts.

(* ===================================================================== *)
(** * Event types and what the alert service makes of them                *)
(* ===================================================================== *)

Section EventTypeFacts.
Import EventService.

Lemma lowerChar_idem c : JS.lowerChar (JS.lowerChar c) = JS.lowerChar c.
Proof. destruct c as [[] [] [] [] [] [] [] []]; reflexivity. Qed.

Lemma lowerChar_separator c :
  Ascii.eqb (JS.lowerChar c) "/"%char = Ascii.eqb c "/"%char.
Proof. destruct c as [[] [] [] [] [] [] [] []]; reflexivity. Qed.

Lemma lowerChar_typeChar c : JS.isTypeChar c = true -> JS.lowerChar c = c.
Proof. destruct c as [[] [] [] [] [] [] [] []]; (reflexivity || discriminate). Qed.

Lemma toLowerCase_idem s : JS.toLowerCase (JS.toLowerCase s) = JS.toLowerCase s.
Proof.
  induction s as [|c s IH]; simpl; [reflexivity|].
  by rewrite lowerChar_idem, IH.
Qed.

Lemma toLowerCase_typeChars s :
  JS.allChars JS.isTypeChar s = true -> JS.toLowerCase s = s.
Proof.
  induction s as [|c s IH]; simpl; [reflexivity|].
  intros [Hc Hs]%andb_prop. by rewrite (lowerChar_typeChar c Hc), (IH Hs).
Qed.

Lemma split_toLowerCase s :
  JS.split "/" (JS.toLowerCase s) = map JS.toLowerCase (JS.split "/" s).
Proof.
  induction s as [|c s IH]; [reflexivity|].
  cbn [JS.toLowerCase JS.split]. rewrite lowerChar_separator, IH.
  destruct (Ascii.eqb c "/"); [reflexivity|].
  by destruct (JS.split "/" s).
Qed.

Lemma last_toLowerCase parts :
  List.last (map JS.toLowerCase parts) EmptyString
  = JS.toLowerCase (List.last parts EmptyString).
Proof.
  induction parts as [|p [|q parts] IH]; [reflexivity | reflexivity|].
  exact IH.
Qed.

Lemma allChars_replaceNonAlnum s :
  JS.allChars JS.isTypeChar (JS.replaceNonAlnum s) = true.
Proof.
  induction s as [|c s IH]; [reflexivity|].
  cbn [JS.replaceNonAlnum JS.allChars]. rewrite IH, andb_true_r.
  unfold JS.isTypeChar. destruct (JS.isLowerAlnum c) eqn:E; [by rewrite E|].
  reflexivity.
Qed.

(** The last separator of a text that has one. *)
Lemma last_separator s :
  JS.includes "/" s = true ->
  exists pre seg, s = pre +:+ "/" +:+ seg /\ JS.includes "/" seg = false.
Proof.
  induction s as [|x s IH]; intros H; [discriminate|].
  destruct (JS.includes "/" s) eqn:E.
  - destruct (IH eq_refl) as (pre & seg & -> & Hseg).
    by exists (String x pre), seg.
  - exists EmptyString, s. split; [|exact E].
    cbn [JS.includes] in H. rewrite E in H.
    destruct (JS.startsWith "/" (String x s)) eqn:Hs; [|discriminate].
    apply startsWith_true in Hs as [r Hr]. by injection Hr as -> ->.
Qed.

Lemma event_type_alphabet_aux topic :
  JS.allChars JS.isTypeChar (extractEventType topic) = true.
Proof.
  unfold extractEventType.
  repeat (case_match; try reflexivity); apply allChars_replaceNonAlnum.
Qed.

(** X11.  Whatever the topic, the event type is made of the characters
    [a-z0-9_] only: upper case letters, colons, dots and every other
    character of a topic never reach the name of the channel an event is
    emitted on. *)
Theorem event_type_alphabet topic :
  JS.allChars JS.isTypeChar (extractEventType topic) = true
  /\ JS.toLowerCase (extractEventType topic) = extractEventType topic.
Proof.
  split; [apply event_type_alphabet_aux|].
  apply toLowerCase_typeChars, event_type_alphabet_aux.
Qed.

(** X12.  The type does not depend on the letter case of the topic. *)
Theorem event_type_ignores_case topic :
  extractEventType (JS.toLowerCase topic) = extractEventType topic.
Proof.
  unfold extractEventType.
  assert (String.eqb (JS.toLowerCase topic) EmptyString = String.eqb topic EmptyString)
    as -> by (by destruct topic).
  by rewrite split_toLowerCase, length_map, last_toLowerCase, !toLowerCase_idem.
Qed.

(** X13.  The type is the empty string exactly for the topics that end
    with the path separator: their last segment is empty, and the event
    is emitted on the channel with the empty name. *)
Theorem event_type_empty_iff_trailing_separator topic :
  extractEventType topic = EmptyString <-> exists pre, topic = pre +:+ "/".
Proof.
  split.
  - intros H.
    destruct (String.eqb_spec topic EmptyString) as [->|Hne]; [discriminate|].
    destruct (JS.includes "/" topic) eqn:Hsep.
    + destruct (last_separator topic Hsep) as (pre & seg & -> & Hseg).
      rewrite (extractEventType_last_segment pre seg Hseg) in H.
      destruct (_ || _)%bool; [discriminate|].
      destruct (_ && _)%bool; [discriminate|].
      destruct seg; [by exists pre | discriminate].
    + rewrite (extractEventType_one_segment topic Hne Hsep) in H.
      destruct topic; [done | discriminate].
  - intros [pre ->].
    exact (extractEventType_last_segment pre EmptyString eq_refl).
Qed.

(** X14.  What the alert service makes of a type the event service has
    assigned: the severity is high exactly for 'peopledetection', critical
    exactly for 'tamper' and 'tampering', low exactly for 'device', and
    medium otherwise.  So a polled event whose topic ends in a segment
    that mentions people, human or person, in any letter case, is alerted
    with severity high. *)
Theorem severity_of_event_types topic :
  let ty := extractEventType topic in
  let severity := AlertService.determineSeverity ty in
  (severity = AlertService.high <-> ty = "peopledetection")
  /\ (severity = AlertService.critical <-> ty = "tamper" \/ ty = "tampering")
  /\ (severity = AlertService.low <-> ty = "device")
  /\ (forall env k event pre seg,
        p_topic event = Some topic ->
        topic = pre +:+ "/" +:+ seg ->
        JS.includes "/" seg = false ->
        (JS.includes "people" (JS.toLowerCase seg)
         || JS.includes "human" (JS.toLowerCase seg)
         || JS.includes "person" (JS.toLowerCase seg))%bool = true ->
        AlertService.determineSeverity (type (processPolledEvent env k event))
        = AlertService.high).
Proof.
  intros ty severity.
  assert (forall env k event pre seg,
             p_topic event = Some topic ->
             topic = pre +:+ "/" +:+ seg ->
             JS.includes "/" seg = false ->
             (JS.includes "people" (JS.toLowerCase seg)
              || JS.includes "human" (JS.toLowerCase seg)
              || JS.includes "person" (JS.toLowerCase seg))%bool = true ->
             AlertService.determineSeverity (type (processPolledEvent env k event))
             = AlertService.high) as Hpolled.
  { intros env k event pre seg Htopic -> Hseg Hpeople.
    unfold processPolledEvent. cbn [type]. rewrite Htopic.
    assert (String.eqb (pre +:+ "/" +:+ seg) EmptyString = false) as ->
      by (apply String.eqb_neq; by destruct pre).
    rewrite (extractEventType_last_segment pre seg Hseg), Hpeople.
    reflexivity. }
  subst severity. unfold AlertService.determineSeverity.
  rewrite (toLowerCase_typeChars ty (event_type_alphabet_aux topic)).
  clearbody ty. cbv zeta.
  repeat split; try exact Hpolled; clear Hpolled;
    repeat (match goal with
            | |- context [String.eqb ty ?x] => destruct (String.eqb_spec ty x)
            end; cbn [orb]);
    intuition congruence.
Qed.

Lemma severity_of_event_types_witness :
  AlertService.determineSeverity
    (type (processPolledEvent quietEnv 0
             {| p_topic := Some "tns1:RuleEngine/MyRuleDetector/PERSONcount";
                p_source := None; p_key := None |}))
  = AlertService.high.
Proof.
  destruct (severity_of_event_types "tns1:RuleEngine/MyRuleDetector/PERSONcount")
    as (_ & _ & _ & H).
  exact (H quietEnv 0%nat
           {| p_topic := Some "tns1:RuleEngine/MyRuleDetector/PERSONcount";
              p_source := None; p_key := None |}
           "tns1:RuleEngine/MyRuleDetector" "PERSONcount"
           eq_refl eq_refl eq_refl eq_refl).
Defined.

End EventTypeFacts.

(* ===================================================================== *)
(** * Poll cycles: what is delivered, and when polling ends               *)
(* ===================================================================== *)

Section PollCycleFacts.
Import EventService.

Lemma emitPolled_quiet env events :
  forall k s,
    throwsOn env k events = false ->
    emitted (fst (emitPolled env k events s))
    = (emitted s ++ flat_map deliveries (processedFrom env k events))%list
    /\ eventCounter (fst (emitPolled env k events s))
       = eventCounter s + Z.of_nat (length events).
Proof.
  induction events as [|e rest IH]; intros k s Hq.
  - simpl. rewrite app_nil_r. split; [reflexivity | lia].
  - cbn [throwsOn] in Hq.
    apply orb_false_elim in Hq as [Hq Hrest].
    apply orb_false_elim in Hq as [H1 H2].
    cbn [processedFrom flat_map deliveries app emitPolled].
    set (pe := processPolledEvent env k e) in *. clearbody pe.
    simpl. rewrite H1. simpl. rewrite H2. simpl.
    match goal with
    | |- context [emitPolled env (S k) rest ?s2] =>
        destruct (IH (S k) s2 Hrest) as [Hem Hcnt]
    end.
    split.
    + rewrite Hem. simpl. by rewrite <- !app_assoc.
    + rewrite Hcnt. simpl. lia.
Qed.

Lemma length_processedFrom env events :
  forall k, length (processedFrom env k events) = length events.
Proof.
  induction events as [|e rest IH]; intros k; [reflexivity|].
  cbn [processedFrom length]. by rewrite IH.
Qed.

Lemma onChannel_deliveries l :
  onChannel "event" (flat_map deliveries l)
  = (length l + length (List.filter (fun e => String.eqb (type e) "event") l))%nat.
Proof.
  unfold onChannel. induction l as [|e l IH]; [reflexivity|].
  cbn [flat_map deliveries app List.filter fst length].
  change (String.eqb "event" "event") with true. cbn [length].
  destruct (String.eqb (type e) "event"); cbn [length]; rewrite IH; lia.
Qed.

(** X15.  A poll cycle of a running service with an active subscription,
    in which [pullMessages] resolves and no listener throws: every event
    pulled is counted and delivered twice, first on ['event'] and then on
    the channel of its type, in the order pulled; the failure count is
    cleared; the camera is called once.  A listener on ['event'] so
    receives an event of type 'event' twice. *)
Theorem successful_cycle_delivers_each_event_twice env p events created s :
  polling s = Some p -> isRunning s = true -> subscriptionActive s = true ->
  throwsOn env 0 events = false ->
  let s' := pollForEvents env (Pulled events) created s in
  let new := flat_map deliveries (processedFrom env 0 events) in
  emitted s' = (emitted s ++ new)%list
  /\ eventCounter s' = eventCounter s + Z.of_nat (length events)
  /\ retryCount s' = 0
  /\ subscriptionActive s' = true
  /\ gateway s' = (gateway s ++ [pullMessages])%list
  /\ onChannel "event" new
     = (length events
        + length (List.filter (fun e => String.eqb (type e) "event")
                    (processedFrom env 0 events)))%nat.
Proof.
  intros Hp Hrun Hact Hq s' new.
  subst s' new. rewrite onChannel_deliveries, length_processedFrom.
  unfold pollForEvents. rewrite pollStart_active by (rewrite ?Hp; done).
  unfold pollResume. cbv zeta.
  set (s1 := setInFlight _ (setInFlight _ (call pullMessages s))).
  pose proof (emitPolled_threw env events 0 s1) as Hthrew.
  pose proof (emitPolled_fields env events 0 s1) as (_ & _ & _ & Hact1 & Hgw1 & _).
  destruct (emitPolled_quiet env events 0 s1 Hq) as [Hem Hcnt].
  destruct (emitPolled env 0 events s1) as [s2 threw]. cbn [fst snd] in *.
  assert (threw = None) as ->.
  { rewrite Hthrew. rewrite throwsOn_thrownOn in Hq.
    by destruct (thrownOn env 0 events). }
  cbn [setRetryCount emitted eventCounter retryCount subscriptionActive gateway].
  rewrite Hem, Hcnt, Hact1, Hgw1. subst s1. simpl.
  repeat split; done.
Qed.

Lemma successful_cycle_delivers_each_event_twice_witness :
  let events := [ {| p_topic := Some "tns1:Device/Event"; p_source := None;
                     p_key := None |};
                  {| p_topic := Some "tns1:VideoSource/MotionAlarm";
                     p_source := Some "VideoSource_1"; p_key := None |} ] in
  let s' := pollForEvents quietEnv (Pulled events) true started in
  (fst <$> emitted s') = ["event"; "event"; "event"; "motionalarm"]
  /\ eventCounter s' = 2.
Proof.
  intros events s'.
  destruct (successful_cycle_delivers_each_event_twice quietEnv defaultPolling
              events true started)
    as (Hem & Hcnt & _); [reflexivity | reflexivity | reflexivity | reflexivity |].
  fold s' in Hem, Hcnt. rewrite Hem, Hcnt. split; reflexivity.
Defined.

(** X16.  A failing poll cycle with no retry left, because retryOnError is
    off or the failures counted already stand at maxRetries (as with
    maxRetries 0), settling with no other cycle in flight and with an
    error the logger takes: the subscription is marked inactive without
    the camera being asked for a new one, and from then on whatever the
    timer does leaves the service as it is, and the camera is not
    called. *)
Theorem failure_without_retry_ends_polling env p result created s :
  polling s = Some p -> isRunning s = true -> subscriptionActive s = true ->
  inFlight s = 0%nat ->
  failsLogged env Logger.error result = true ->
  retryOnError p = false \/ maxRetries p < retryCount s + 1 ->
  let s' := run env (serial [(result, created)]) s in
  subscriptionActive s' = false
  /\ retryCount s' = retryCount s + 1
  /\ gateway s' = (gateway s ++ [pullMessages])%list
  /\ forall es, run env es s' = s'.
Proof.
  intros Hp Hrun Hact Hfl Hfail Hno s'.
  assert (s' = pollForEvents env result created s) as Hs'.
  { subst s'. by rewrite run_serial_cons. }
  assert (subscriptionActive s' = false
          /\ retryCount s' = retryCount s + 1
          /\ gateway s' = (gateway s ++ [pullMessages])%list) as H.
  { rewrite Hs'. unfold failsLogged in Hfail.
    unfold pollForEvents. rewrite pollStart_active by (rewrite ?Hp; done).
    unfold pollResume. cbv zeta.
    destruct (try_block env result
                (setInFlight
                   (Nat.pred (inFlight (setInFlight (S (inFlight s))
                                          (call pullMessages s))))
                   (setInFlight (S (inFlight s)) (call pullMessages s))))
      as (s2 & -> & Hp2 & Hrun2 & Hrc2 & Hact2 & Hgw2 & _).
    cbn [polling isRunning retryCount subscriptionActive gateway setInFlight call]
      in Hp2, Hrun2, Hrc2, Hact2, Hgw2.
    destruct (pollError env result) as [error|]; [|discriminate].
    destruct (Logger.log (logLevel env) Logger.error error); [discriminate|].
    rewrite Hp2, Hp, Hrun2, Hrun. cbn [negb retryCount setRetryCount].
    rewrite Hrc2.
    assert ((retryOnError p && (retryCount s + 1 <=? maxRetries p))%bool = false)
      as ->.
    { destruct Hno as [-> | Hlt]; [reflexivity|].
      apply andb_false_iff. right. apply Z.leb_gt. lia. }
    cbn. by rewrite ?Hrc2, ?Hgw2. }
  destruct H as (Hoff & Hrc & Hgw).
  repeat split; try done.
  intros es. apply run_inactive_idle; [done|].
  by rewrite Hs', pollForEvents_inFlight.
Qed.

Lemma failure_without_retry_ends_polling_witness :
  let s := {| polling := Some {| pullInterval := 5000; messageLimit := 10;
                                 timeout := "PT10S"; retryOnError := true;
                                 maxRetries := 0 |};
              isRunning := true; eventCounter := 0; retryCount := 0;
              subscriptionActive := true; emitted := [];
              gateway := [createPullPoint]; inFlight := 0 |} in
  gateway (run quietEnv [Tick; Settled PullRejected true; Tick]
             (run quietEnv (serial [(PullRejected, true)]) s))
  = [createPullPoint; pullMessages].
Proof.
  intros s.
  destruct (failure_without_retry_ends_polling quietEnv
              {| pullInterval := 5000; messageLimit := 10; timeout := "PT10S";
                 retryOnError := true; maxRetries := 0 |}
              PullRejected true s)
    as (_ & _ & Hgw & Hstay);
    [reflexivity | reflexivity | reflexivity | reflexivity | reflexivity
     | right; simpl; lia |].
  rewrite Hstay. exact Hgw.
Defined.




(** X18.  A cycle that settles after [stop] has cleared isRunning: when it
    failed, the failure is neither counted nor followed by any call on the
    camera, and the subscription flag stays; when [pullMessages] resolved,
    the events pulled are still counted and delivered. *)
Theorem cycle_settling_after_stop env result created s :
  isRunning s = false ->
  let s' := pollResume env result created s in
  (pollFails env result = true ->
   retryCount s' = retryCount s
   /\ subscriptionActive s' = subscriptionActive s
   /\ gateway s' = gateway s)
  /\ (forall events,
        result = Pulled events -> throwsOn env 0 events = false ->
        emitted s'
        = (emitted s ++ flat_map deliveries (processedFrom env 0 events))%list
        /\ eventCounter s' = eventCounter s + Z.of_nat (length events)).
Proof.
  intros Hrun s'. subst s'. unfold pollResume. cbv zeta.
  set (s1 := setInFlight _ s).
  split.
  - intros Hfail. rewrite pollFails_pollError in Hfail.
    destruct (try_block env result s1)
      as (s2 & -> & Hp2 & Hrun2 & Hrc2 & Hact2 & Hgw2 & _).
    subst s1.
    cbn [polling isRunning retryCount subscriptionActive gateway setInFlight]
      in Hp2, Hrun2, Hrc2, Hact2, Hgw2.
    destruct (pollError env result) as [error|]; [|discriminate].
    rewrite <- Hrc2, <- Hact2, <- Hgw2.
    destruct (polling s2); [|done].
    by rewrite Hrun2, Hrun.
  - intros events -> Hq.
    pose proof (emitPolled_threw env events 0 s1) as Hthrew.
    destruct (emitPolled_quiet env events 0 s1 Hq) as [Hem Hcnt].
    destruct (emitPolled env 0 events s1) as [s2 threw]. cbn [fst snd] in *.
    assert (threw = None) as ->.
    { rewrite Hthrew. rewrite throwsOn_thrownOn in Hq.
      by destruct (thrownOn env 0 events). }
    cbn [setRetryCount emitted eventCounter]. by rewrite Hem, Hcnt.
Qed.

Lemma cycle_settling_after_stop_witness :
  let s := {| polling := Some defaultPolling; isRunning := false;
              eventCounter := 7; retryCount := 2; subscriptionActive := true;
              emitted := []; gateway := [createPullPoint; pullMessages];
              inFlight := 1 |} in
  retryCount (pollResume quietEnv PullRejected true s) = 2
  /\ gateway (pollResume quietEnv PullRejected true s)
     = [createPullPoint; pullMessages].
Proof.
  intros s.
  destruct (cycle_settling_after_stop quietEnv PullRejected true s) as [H _];
    [reflexivity|].
  destruct (H eq_refl) as (Hrc & _ & Hgw).
  rewrite Hrc, Hgw. split; reflexivity.
Defined.

End PollCycleFacts.

(* ===================================================================== *)
(** * What is read from a notification message                            *)
(* ===================================================================== *)

Section MessageFacts.
Import EventService.

Lemma matchTopic_wellformed pre attrs inner post :
  JS.includes "<wsnt:Topic" pre = false ->
  JS.includes ">" attrs = false ->
  JS.includes "</wsnt:Topic>" inner = false ->
  let messageXml := pre +:+ "<wsnt:Topic" +:+ attrs +:+ ">" +:+ inner
                    +:+ "</wsnt:Topic>" +:+ post in
  matchTopic (String.length messageXml) messageXml
  = if JS.hasLineTerminator inner
    then matchTopic (Nat.pred (String.length messageXml))
           (attrs +:+ ">" +:+ inner +:+ "</wsnt:Topic>" +:+ post)
    else Some inner.
Proof.
  intros Hpre Hattrs Hinner messageXml.
  destruct (String.length messageXml) as [|n] eqn:Hn.
  - subst messageXml. rewrite length_append, length_append in Hn.
    simpl in Hn. lia.
  - subst messageXml. cbn [matchTopic Nat.pred].
    rewrite (cut_found "<wsnt:Topic" pre) by done.
    rewrite (cut_found ">" attrs) by done.
    rewrite (cut_found "</wsnt:Topic>" inner) by done.
    reflexivity.
Qed.



(** X20.  A Topic element whose text runs over a line break is not read:
    with no other Topic element behind it in the message, the topic and
    the type of the event are 'unknown'. *)
Theorem topic_broken_over_lines_is_unknown env k pre attrs inner post :
  JS.includes "<wsnt:Topic" pre = false ->
  JS.includes ">" attrs = false ->
  JS.includes "</wsnt:Topic>" inner = false ->
  JS.hasLineTerminator inner = true ->
  JS.includes "<wsnt:Topic"
    (attrs +:+ ">" +:+ inner +:+ "</wsnt:Topic>" +:+ post) = false ->
  let e := parseNotificationMessage env k
             (pre +:+ "<wsnt:Topic" +:+ attrs +:+ ">" +:+ inner
              +:+ "</wsnt:Topic>" +:+ post) in
  topic e = "unknown" /\ type e = "unknown".
Proof.
  intros Hpre Hattrs Hinner Hlines Hrest e. subst e.
  unfold parseNotificationMessage. cbn [topic type].
  rewrite (matchTopic_wellformed pre attrs inner post Hpre Hattrs Hinner), Hlines.
  assert (forall fuel,
             matchTopic fuel (attrs +:+ ">" +:+ inner +:+ "</wsnt:Topic>" +:+ post)
             = None) as ->.
  { intros [|fuel]; [reflexivity|].
    cbn [matchTopic]. by rewrite (cut_absent _ _ Hrest). }
  split; reflexivity.
Qed.

Lemma topic_broken_over_lines_is_unknown_witness :
  let newline := String (ascii_of_nat 10) EmptyString in
  let e := parseNotificationMessage quietEnv 0
             (openTag +:+ "<wsnt:Topic" +:+ EmptyString +:+ ">"
              +:+ (newline +:+ "tns1:VideoSource/MotionAlarm" +:+ newline)
              +:+ "</wsnt:Topic>" +:+ closeTag) in
  topic e = "unknown" /\ type e = "unknown".
Proof.
  intros newline e.
  exact (topic_broken_over_lines_is_unknown quietEnv 0 openTag EmptyString
           (newline +:+ "tns1:VideoSource/MotionAlarm" +:+ newline) closeTag
           eq_refl eq_refl eq_refl eq_refl eq_refl).
Defined.

(** X21.  The timestamp of a message is read from its first UtcTime
    attribute, as far as the next double quote, and handed to the date
    parser as it stands; a message without the attribute is stamped with
    the time of its receipt. *)
Theorem timestamp_is_the_first_UtcTime_attribute env k :
  (forall pre value post,
      JS.includes ("UtcTime=" +:+ JS.dquote) pre = false ->
      JS.includes JS.dquote value = false ->
      timestamp (parseNotificationMessage env k
                   (pre +:+ ("UtcTime=" +:+ JS.dquote) +:+ value
                    +:+ JS.dquote +:+ post))
      = DateOf value (parsesAsDate env value))
  /\ (forall messageXml,
        JS.includes ("UtcTime=" +:+ JS.dquote) messageXml = false ->
        timestamp (parseNotificationMessage env k messageXml) = DateAt (now env k)).
Proof.
  split.
  - intros pre value post Hpre Hvalue.
    unfold parseNotificationMessage, matchUtcTime. cbn [timestamp].
    rewrite (cut_found ("UtcTime=" +:+ JS.dquote) pre) by done.
    rewrite (cut_found JS.dquote value) by done.
    reflexivity.
  - intros messageXml Hno.
    unfold parseNotificationMessage, matchUtcTime. cbn [timestamp].
    by rewrite (cut_absent _ _ Hno).
Qed.

Lemma timestamp_is_the_first_UtcTime_attribute_witness :
  timestamp (parseNotificationMessage quietEnv 0
               ("<tt:Message " +:+ ("UtcTime=" +:+ JS.dquote)
                +:+ "2025-01-01T00:00:00Z" +:+ JS.dquote +:+ ">"))
  = DateOf "2025-01-01T00:00:00Z" true.
Proof.
  destruct (timestamp_is_the_first_UtcTime_attribute quietEnv 0) as [H _].
  exact (H "<tt:Message " "2025-01-01T00:00:00Z" ">" eq_refl eq_refl).
Defined.

Lemma notifyAll_quiet env :
  (forall channel e, listenerThrows env channel e = false) ->
  forall processedEvents s,
    emitted (fst (notifyAll env processedEvents s))
    = (emitted s ++ flat_map deliveries (reached processedEvents))%list
    /\ eventCounter (fst (notifyAll env processedEvents s))
       = eventCounter s + Z.of_nat (length (reached processedEvents)).
Proof.
  intros Hquiet processedEvents.
  induction processedEvents as [|e rest IH]; intros s.
  - simpl. rewrite app_nil_r. split; [reflexivity | lia].
  - cbn [notifyAll reached]. cbv zeta. unfold emit. rewrite !Hquiet.
    destruct (toISOStringThrows (timestamp e)).
    + cbn [fst emitted eventCounter setEventCounter flat_map deliveries app length].
      rewrite <- !app_assoc. split; [reflexivity | lia].
    + match goal with
      | |- context [notifyAll env rest ?s2] => destruct (IH s2) as [Hem Hcnt]
      end.
      rewrite Hem, Hcnt.
      cbn [fst emitted eventCounter setEventCounter flat_map deliveries app length].
      rewrite <- !app_assoc. split; [reflexivity | lia].
Qed.

Lemma reached_all_valid l :
  Forall (fun e => toISOStringThrows (timestamp e) = false) l -> reached l = l.
Proof.
  induction 1 as [|e l He _ IH]; [reflexivity|].
  cbn [reached]. by rewrite He, IH.
Qed.

Lemma reached_first_invalid l1 e l2 :
  Forall (fun e => toISOStringThrows (timestamp e) = false) l1 ->
  toISOStringThrows (timestamp e) = true ->
  reached (l1 ++ e :: l2) = (l1 ++ [e])%list.
Proof.
  intros Hl1 He. induction Hl1 as [|x l Hx _ IH].
  - cbn [app reached]. by rewrite He.
  - cbn [app reached]. by rewrite Hx, IH.
Qed.

(** X22.  What a push notification comes to when no listener throws: the
    events parsed from it are counted and delivered twice each, in order,
    up to and including the first one whose UtcTime is not a date; the
    events behind that one are dropped without a trace, and when every
    timestamp is a date none is. *)
Theorem notification_is_delivered_up_to_the_first_invalid_date env xmlBody s :
  (forall channel e, listenerThrows env channel e = false) ->
  let events := parseEventXml env xmlBody in
  let s' := fst (processEventNotification env xmlBody s) in
  emitted s' = (emitted s ++ flat_map deliveries (reached events))%list
  /\ eventCounter s' = eventCounter s + Z.of_nat (length (reached events))
  /\ (Forall (fun e => toISOStringThrows (timestamp e) = false) events ->
      reached events = events)
  /\ (forall l1 e l2,
        events = (l1 ++ e :: l2)%list ->
        Forall (fun e => toISOStringThrows (timestamp e) = false) l1 ->
        toISOStringThrows (timestamp e) = true ->
        reached events = (l1 ++ [e])%list).
Proof.
  intros Hquiet events s'.
  assert (s' = fst (notifyAll env events s)) as ->.
  { subst s' events. unfold processEventNotification.
    destruct (notifyAll env (parseEventXml env xmlBody) s) as [s2 [error|]];
      reflexivity. }
  destruct (notifyAll_quiet env Hquiet events s) as [Hem Hcnt].
  split; [exact Hem|]. split; [exact Hcnt|].
  split; [apply reached_all_valid|].
  intros l1 e l2 -> Hl1 He. by apply reached_first_invalid.
Qed.

Lemma notification_is_delivered_up_to_the_first_invalid_date_witness :
  let strict := {| now := fun _ => 1700000000000; random := fun _ => "k3j9x0q2a";
                   listenerThrows := fun _ _ => false;
                   sourceItems := fun _ => "{}";
                   parsesAsDate := fun _ => false;
                   thrown := fun _ _ => Logger.Serialisable;
                   logLevel := Some Logger.info |} in
  let block := openTag
               +:+ "<wsnt:Topic>tns1:VideoSource/MotionAlarm</wsnt:Topic>"
               +:+ "<tt:Message UtcTime=" +:+ JS.dquote +:+ "soon" +:+ JS.dquote +:+ ">"
               +:+ closeTag in
  eventCounter (fst (processEventNotification strict (block +:+ block) started)) = 1.
Proof.
  intros strict block.
  destruct (notification_is_delivered_up_to_the_first_invalid_date strict
              (block +:+ block) started) as (_ & Hcnt & _); [reflexivity|].
  rewrite Hcnt. vm_compute. reflexivity.
Defined.

End MessageFacts.

(* ===================================================================== *)
(** * The ONVIF service: connection and subscription                      *)
(* ===================================================================== *)

Section ConnectionFacts.
Import ONVIFService.

Lemma ensureConnected_isServiceConnected s :
  ensureConnected s = negb (isServiceConnected s).
Proof.
  unfold ensureConnected, isServiceConnected.
  by destruct (isConnected s), (camera s).
Qed.

(** X23.  While the service is not connected, none of its requests
    reaches the camera: each of them throws and leaves the service as it
    was.  That is so before [connect], after a [connect] that failed on a
    new service, and after every [disconnect]. *)
Theorem requests_need_a_connection {A : Type} (s : t)
    (answer : Answer A) (messages : Answer (list A)) (ok : bool) :
  isServiceConnected s = false ->
  getDeviceInformation answer s = (s, Thrown)
  /\ getCapabilities answer s = (s, Thrown)
  /\ getStreamUri answer s = (s, Thrown)
  /\ createPullPointSubscription answer s = (s, Thrown)
  /\ pullMessages messages s = (s, Thrown)
  /\ createEventSubscription answer s = (s, Thrown)
  /\ unsubscribeFromEvents ok s = (s, Thrown)
  /\ isServiceConnected fresh = false
  /\ isServiceConnected (fst (connect true fresh)) = false
  /\ (forall s0, isServiceConnected (disconnect ok s0) = false).
Proof.
  intros H.
  unfold getDeviceInformation, getCapabilities, getStreamUri,
    createPullPointSubscription, ask, pullMessages, createEventSubscription,
    unsubscribeFromEvents.
  rewrite ensureConnected_isServiceConnected, H. cbn [negb].
  repeat split.
Qed.

Lemma requests_need_a_connection_witness :
  pullMessages (Answered (Some [tt; tt])) (disconnect true (fst (connect false fresh)))
  = (disconnect true (fst (connect false fresh)), Thrown).
Proof.
  destruct (requests_need_a_connection
              (disconnect true (fst (connect false fresh)))
              (Answered (Some tt)) (Answered (Some [tt; tt])) true)
    as (_ & _ & _ & _ & H & _); [reflexivity|].
  exact H.
Defined.

(** X24.  [disconnect] always ends with the service disconnected.  It
    calls the camera at most once, to unsubscribe, and only when a
    subscription is held on a connected service; the subscription is
    forgotten only when that call succeeded, so one that could not be
    cancelled is still held after the next [connect]. *)
Theorem disconnect_forgets_only_a_cancelled_subscription ok s :
  let s' := disconnect ok s in
  isServiceConnected s' = false
  /\ requests s'
     = (requests s
        ++ if (subscription s && isServiceConnected s)%bool
           then [cam_unsubscribe] else [])%list
  /\ subscription s' = (subscription s && negb (isServiceConnected s && ok))%bool
  /\ subscription (fst (connect false s')) = subscription s'.
Proof.
  destruct s as [[] [] [] reqs], ok; cbn; rewrite ?app_nil_r; repeat split.
Qed.

End ConnectionFacts.

(* ===================================================================== *)
(** * Starting and stopping the event service                             *)
(* ===================================================================== *)

Section LifecycleFacts.
Import ONVIFService EventServiceLifecycle.

Lemma ask_returned {A : Type} m (answer : Answer A) s :
  returned (snd (ask m answer s)) = (isServiceConnected s && answers answer)%bool.
Proof.
  unfold ask. rewrite ensureConnected_isServiceConnected.
  destruct (isServiceConnected s); [|reflexivity].
  by destruct answer as [|[v|]].
Qed.

Lemma ask_keeps_connection {A : Type} m (answer : Answer A) s :
  camera (fst (ask m answer s)) = camera s
  /\ isConnected (fst (ask m answer s)) = isConnected s
  /\ subscription (fst (ask m answer s)) = subscription s.
Proof.
  unfold ask. destruct (ensureConnected s); [done|].
  by destruct answer as [|[v|]].
Qed.

Lemma createEventSubscription_keeps_connection {A : Type} (answer : Answer A) s :
  camera (fst (createEventSubscription answer s)) = camera s
  /\ isConnected (fst (createEventSubscription answer s)) = isConnected s.
Proof.
  unfold createEventSubscription. destruct (ensureConnected s); [done|].
  by destruct answer as [|[v|]].
Qed.

Lemma createEventSubscription_returned {A : Type} (answer : Answer A) s :
  returned (snd (createEventSubscription answer s)) = true ->
  subscription (fst (createEventSubscription answer s)) = true.
Proof.
  unfold createEventSubscription. destruct (ensureConnected s); [discriminate|].
  by destruct answer as [|[v|]].
Qed.

Lemma unsubscribeFromEvents_keeps_connection ok s :
  camera (fst (unsubscribeFromEvents ok s)) = camera s
  /\ isConnected (fst (unsubscribeFromEvents ok s)) = isConnected s.
Proof.
  unfold unsubscribeFromEvents. destruct (ensureConnected s); [done|].
  destruct (subscription s); [|done]. by destruct ok.
Qed.

Lemma unsubscribeFromEvents_idle ok s :
  subscription s = false -> fst (unsubscribeFromEvents ok s) = s.
Proof.
  intros H. unfold unsubscribeFromEvents. rewrite H.
  by destruct (ensureConnected s).
Qed.

(** What [cleanup] always achieves. *)
Lemma cleanup_clears unsubscribed s :
  pullTimer (cleanup unsubscribed s) = false
  /\ httpServer (cleanup unsubscribed s) = false
  /\ service (cleanup unsubscribed s) = service s
  /\ method (cleanup unsubscribed s) = method s.
Proof.
  unfold cleanup. destruct s as [svc onvif m p [] []]; by cbn.
Qed.

Lemma cleanup_keeps_connection unsubscribed s :
  camera (onvifService (cleanup unsubscribed s)) = camera (onvifService s)
  /\ isConnected (onvifService (cleanup unsubscribed s)) = isConnected (onvifService s).
Proof.
  unfold cleanup. destruct s as [svc onvif m p [] []]; cbn; try done;
    apply unsubscribeFromEvents_keeps_connection.
Qed.

(** What the two ways of starting leave alone, and when they return. *)
Lemma startPollingMethod_spec {A : Type} (answer : Answer A) s :
  let r := startPollingMethod answer s in
  EventService.isRunning (service (fst r)) = EventService.isRunning (service s)
  /\ httpServer (fst r) = httpServer s
  /\ method (fst r) = method s
  /\ camera (onvifService (fst r)) = camera (onvifService s)
  /\ isConnected (onvifService (fst r)) = isConnected (onvifService s)
  /\ subscription (onvifService (fst r)) = subscription (onvifService s)
  /\ returned (snd r)
     = match EventService.polling (service s) with
       | None => false
       | Some p => (isServiceConnected (onvifService s) && answers answer
                    || EventService.retryOnError p)%bool
       end
  /\ (returned (snd r) = true ->
      pullTimer (fst r) = true
      /\ EventService.polling (service (fst r)) = EventService.polling (service s)
      /\ EventService.subscriptionActive (service (fst r))
         = (isServiceConnected (onvifService s) && answers answer)%bool).
Proof.
  unfold startPollingMethod, createPullPointSubscription,
    ONVIFService.createPullPointSubscription.
  destruct (EventService.polling (service s)) as [p|] eqn:Hp; [|by cbn].
  pose proof (ask_returned cam_createPullPointSubscription answer (onvifService s))
    as Hret.
  pose proof (ask_keeps_connection cam_createPullPointSubscription answer
                (onvifService s)) as (Hcam & Hconn & Hsub).
  destruct (ask cam_createPullPointSubscription answer (onvifService s))
    as [onvif outcome].
  cbn [fst snd] in *. unfold EventService.createPullPointSubscription.
  destruct outcome as [v|]; cbn [returned] in Hret; rewrite <- Hret; cbn.
  - unfold startEventPolling. cbn. rewrite Hp. cbn. by rewrite Hp.
  - rewrite Hp. destruct (EventService.retryOnError p); cbn; [|done].
    unfold startEventPolling. cbn. rewrite Hp. cbn. by rewrite Hp.
Qed.

Lemma startPushMethod_spec {A : Type} listens (answer : Answer A) s :
  let r := startPushMethod listens answer s in
  EventService.isRunning (service (fst r)) = EventService.isRunning (service s)
  /\ pullTimer (fst r) = pullTimer s
  /\ method (fst r) = method s
  /\ camera (onvifService (fst r)) = camera (onvifService s)
  /\ isConnected (onvifService (fst r)) = isConnected (onvifService s)
  /\ returned (snd r)
     = (push s && listens && isServiceConnected (onvifService s) && answers answer)%bool
  /\ (returned (snd r) = true ->
      httpServer (fst r) = true /\ subscription (onvifService (fst r)) = true).
Proof.
  unfold startPushMethod, startHttpServer.
  destruct (push s); cbn [negb andb]; [|by cbn].
  destruct listens; cbn [andb]; [|by cbn].
  pose proof (createEventSubscription_keeps_connection answer (onvifService s))
    as (Hcam & Hconn).
  pose proof (createEventSubscription_returned answer (onvifService s)) as Hsub.
  assert (returned (snd (createEventSubscription answer (onvifService s)))
          = (isServiceConnected (onvifService s) && answers answer)%bool) as Hret.
  { unfold createEventSubscription. rewrite ensureConnected_isServiceConnected.
    destruct (isServiceConnected (onvifService s)); [|reflexivity].
    by destruct answer as [|[v|]]. }
  cbn [onvifService setHttpServer].
  destruct (createEventSubscription answer (onvifService s)) as [onvif outcome].
  cbn [fst snd] in *. rewrite <- Hret.
  destruct outcome; cbn; repeat split; try done. by apply Hsub.
Qed.

Lemma setService_same s : setService (service s) s = s.
Proof. by destruct s. Qed.

(** X25.  In polling mode with retryOnError set, [start] returns normally
    also when no pull-point subscription could be created, because the
    camera refused or the ONVIF service is not connected: the service
    then counts as running and its timer is set, but the subscription is
    inactive, and no tick of the timer ever polls. *)
Theorem start_succeeds_without_a_subscription {A : Type} env listens
    (answer : Answer A) unsubscribed s p :
  method s = Polling ->
  EventService.polling (service s) = Some p ->
  EventService.retryOnError p = true ->
  EventService.isRunning (service s) = false ->
  (isServiceConnected (onvifService s) && answers answer)%bool = false ->
  let s' := fst (start listens answer unsubscribed s) in
  snd (start listens answer unsubscribed s) = Returned tt
  /\ EventService.isRunning (service s') = true
  /\ pullTimer s' = true
  /\ EventService.subscriptionActive (service s') = false
  /\ forall n, Nat.iter n (tick env) s' = s'.
Proof.
  intros Hm Hp Hretry Hrun Hfail s'.
  assert (snd (start listens answer unsubscribed s) = Returned tt
          /\ EventService.isRunning (service s') = true
          /\ pullTimer s' = true
          /\ EventService.subscriptionActive (service s') = false) as H.
  { subst s'. unfold start. rewrite Hrun, Hm.
    pose proof (startPollingMethod_spec answer s) as (_ & _ & _ & _ & _ & _ & Hret & Hok).
    cbv zeta in Hret, Hok. rewrite Hp, Hfail, Hretry in Hret. cbn in Hret.
    destruct (startPollingMethod answer s) as [s1 outcome]. cbn [fst snd] in *.
    destruct outcome as [[]|]; [|discriminate].
    destruct (Hok eq_refl) as (Htimer & _ & Hact). rewrite Hfail in Hact.
    by cbn. }
  destruct H as (Hret & Hrun' & Htimer & Hact).
  repeat split; try done.
  assert (tick env s' = s') as Htick.
  { unfold tick. rewrite Htimer. unfold EventService.step, EventService.pollStart.
    rewrite Hact, Hrun'. cbn.
    destruct (EventService.polling (service s')); apply setService_same. }
  induction n as [|n IH]; [reflexivity|]. by rewrite Nat.iter_succ, IH.
Qed.

Lemma start_succeeds_without_a_subscription_witness :
  let s := fresh Polling (Some EventService.defaultPolling) false
             (fst (connect false ONVIFService.fresh)) in
  let s' := fst (start true (@Failed unit) true s) in
  EventService.isRunning (service s') = true
  /\ Nat.iter 5 (tick EventService.quietEnv) s' = s'.
Proof.
  intros s s'.
  destruct (start_succeeds_without_a_subscription EventService.quietEnv true
              (@Failed unit) true s EventService.defaultPolling)
    as (_ & Hrun & _ & _ & Hticks);
    [reflexivity | reflexivity | reflexivity | reflexivity | reflexivity |].
  split; [exact Hrun | exact (Hticks 5%nat)].
Defined.

(** X26.  When [start] throws it leaves nothing behind: the service is
    not running, no timer is set and no server is kept.  It throws exactly
    when the service was not running and, in polling mode, the polling
    settings are missing or no subscription could be created while
    retryOnError is off; in push mode, the push settings are missing, the
    server did not come to listen, or the camera did not subscribe. *)
Theorem failed_start_leaves_nothing_behind {A : Type} listens
    (answer : Answer A) unsubscribed s :
  let s' := fst (start listens answer unsubscribed s) in
  let thrown := negb (returned (snd (start listens answer unsubscribed s))) in
  (thrown = true ->
   EventService.isRunning (service s') = false
   /\ pullTimer s' = false /\ httpServer s' = false)
  /\ thrown
     = (negb (EventService.isRunning (service s))
        && negb
             match method s with
             | Polling =>
                 match EventService.polling (service s) with
                 | None => false
                 | Some p => isServiceConnected (onvifService s) && answers answer
                             || EventService.retryOnError p
                 end
             | Push => push s && listens && isServiceConnected (onvifService s)
                       && answers answer
             end)%bool.
Proof.
  intros s' thrown. subst s' thrown. unfold start.
  destruct (EventService.isRunning (service s)) eqn:Hrun; cbn [negb andb];
    [by split|].
  destruct (method s) eqn:Hm.
  - pose proof (startPollingMethod_spec answer s) as (Hr & _ & _ & _ & _ & _ & Hret & _).
    cbv zeta in Hr, Hret. rewrite <- Hret.
    destruct (startPollingMethod answer s) as [s1 outcome]. cbn [fst snd] in *.
    destruct outcome as [v|]; cbn; [by split|].
    split; [|reflexivity]. intros _.
    destruct (cleanup_clears unsubscribed s1) as (-> & -> & -> & _).
    by rewrite Hr.
  - pose proof (startPushMethod_spec listens answer s) as (Hr & _ & _ & _ & _ & Hret & _).
    cbv zeta in Hr, Hret. rewrite <- Hret.
    destruct (startPushMethod listens answer s) as [s1 outcome]. cbn [fst snd] in *.
    destruct outcome as [v|]; cbn; [by split|].
    split; [|reflexivity]. intros _.
    destruct (cleanup_clears unsubscribed s1) as (-> & -> & -> & _).
    by rewrite Hr.
Qed.

Lemma failed_start_leaves_nothing_behind_witness :
  let s := fresh Push None true (fst (connect false ONVIFService.fresh)) in
  httpServer (fst (start true (@Failed unit) true s)) = false.
Proof.
  intros s.
  destruct (failed_start_leaves_nothing_behind true (@Failed unit) true s)
    as [H _].
  destruct (H eq_refl) as (_ & _ & Hserver). exact Hserver.
Defined.

(** X27.  [stop] after a [start] that succeeded never asks the camera to
    unsubscribe: in push mode [cleanup] returns once the server is closed,
    and in polling mode the ONVIF service holds no subscription to
    cancel.  The ONVIF service is left as [start] left it, in push mode
    with its subscription still held. *)
Theorem stop_sends_no_unsubscribe {A : Type} listens (answer : Answer A)
    unsubscribed unsubscribed' s :
  EventService.isRunning (service s) = false ->
  httpServer s = false ->
  subscription (onvifService s) = false ->
  returned (snd (start listens answer unsubscribed s)) = true ->
  let s1 := fst (start listens answer unsubscribed s) in
  let s2 := stop unsubscribed' s1 in
  onvifService s2 = onvifService s1
  /\ (method s = Push -> subscription (onvifService s2) = true)
  /\ EventService.isRunning (service s2) = false
  /\ pullTimer s2 = false
  /\ httpServer s2 = false.
Proof.
  intros Hrun Hserver Hsub Hret s1 s2.
  assert (EventService.isRunning (service s1) = true
          /\ match method s with
             | Push => httpServer s1 = true /\ subscription (onvifService s1) = true
             | Polling => httpServer s1 = false
                          /\ subscription (onvifService s1) = false
             end) as [Hrun1 Hmode].
  { subst s1 s2. unfold start in *. rewrite Hrun in *.
    destruct (method s) eqn:Hm.
    - pose proof (startPollingMethod_spec answer s)
        as (_ & Hhttp & _ & _ & _ & Hsub1 & _ & _).
      cbv zeta in Hhttp, Hsub1.
      destruct (startPollingMethod answer s) as [s1 outcome]. cbn [fst snd] in *.
      destruct outcome as [v|]; [|discriminate]. cbn.
      by rewrite Hhttp, Hsub1.
    - pose proof (startPushMethod_spec listens answer s)
        as (_ & _ & _ & _ & _ & _ & Hok).
      cbv zeta in Hok.
      destruct (startPushMethod listens answer s) as [s1 outcome]. cbn [fst snd] in *.
      destruct outcome as [v|]; [|discriminate]. cbn.
      split; [reflexivity|]. by apply Hok. }
  assert (onvifService s2 = onvifService s1) as Honvif.
  { subst s2. unfold stop. rewrite Hrun1. cbn [negb]. unfold cleanup.
    destruct s1 as [svc onvif m p server timer]. cbn in *.
    destruct (method s); destruct Hmode as [-> Hs]; destruct timer; cbn; try done;
      by apply unsubscribeFromEvents_idle. }
  split; [exact Honvif|].
  split; [intros Hpush; rewrite Honvif; rewrite Hpush in Hmode; apply Hmode|].
  subst s2. unfold stop. rewrite Hrun1. cbn [negb].
  destruct (cleanup_clears unsubscribed'
              (setService (setIsRunning false (service s1)) s1))
    as (-> & -> & -> & _).
  by cbn.
Qed.

Lemma stop_sends_no_unsubscribe_witness :
  let s := fresh Push None true (fst (connect false ONVIFService.fresh)) in
  let s1 := fst (start true (Answered (Some tt)) true s) in
  requests (onvifService (stop true s1)) = [cam_subscribe]
  /\ subscription (onvifService (stop true s1)) = true.
Proof.
  intros s s1.
  destruct (stop_sends_no_unsubscribe true (Answered (Some tt)) true true s)
    as (Honvif & Hpush & _);
    [reflexivity | reflexivity | reflexivity | reflexivity |].
  fold s1 in Honvif, Hpush.
  split; [rewrite Honvif; reflexivity | exact (Hpush eq_refl)].
Defined.

Lemma start_keeps_connection {A : Type} listens (answer : Answer A) unsubscribed s :
  camera (onvifService (fst (start listens answer unsubscribed s)))
  = camera (onvifService s)
  /\ isConnected (onvifService (fst (start listens answer unsubscribed s)))
     = isConnected (onvifService s).
Proof.
  unfold start. destruct (EventService.isRunning (service s)); [done|].
  destruct (method s).
  - pose proof (startPollingMethod_spec answer s) as (_ & _ & _ & Hcam & Hconn & _).
    cbv zeta in Hcam, Hconn.
    destruct (startPollingMethod answer s) as [s1 outcome]. cbn [fst snd] in *.
    destruct outcome as [v|]; cbn [fst]; [by cbn|].
    destruct (cleanup_keeps_connection unsubscribed s1) as [-> ->]. done.
  - pose proof (startPushMethod_spec listens answer s) as (_ & _ & _ & Hcam & Hconn & _).
    cbv zeta in Hcam, Hconn.
    destruct (startPushMethod listens answer s) as [s1 outcome]. cbn [fst snd] in *.
    destruct outcome as [v|]; cbn [fst]; [by cbn|].
    destruct (cleanup_keeps_connection unsubscribed s1) as [-> ->]. done.
Qed.

End LifecycleFacts.

(* ===================================================================== *)
(** * The application                                                     *)
(* ===================================================================== *)

Section ApplicationFacts.
Import ONVIFService ONVIFApp.

Lemma onvifService_set onvif app : onvifService (setOnvifService onvif app) = onvif.
Proof. reflexivity. Qed.

Lemma ask_stays_connected {A : Type} m (answer : Answer A) s :
  isServiceConnected s = true -> isServiceConnected (fst (ask m answer s)) = true.
Proof.
  intros H. unfold isServiceConnected in *.
  by destruct (ask_keeps_connection m answer s) as (-> & -> & _).
Qed.

(** X28.  When [start] fails after the camera was reached, because the
    event service could not be started, the application does not count as
    running but the connection is kept; [stop] then returns at once, and
    the camera stays connected. *)
Theorem failed_start_keeps_the_connection {A : Type} (w : Startup A)
    unsubscribedByStop unsubscribedByDisconnect app :
  connectFails w = false ->
  returned (snd (start w app)) = false ->
  let app' := fst (start w app) in
  isRunning app' = false
  /\ isServiceConnected (onvifService app') = true
  /\ stop unsubscribedByStop unsubscribedByDisconnect app' = app'.
Proof.
  intros Hconnect Hthrown app'.
  assert (isRunning app' = false
          /\ isServiceConnected (onvifService app') = true) as [Hrun Hconn].
  { subst app'. unfold start in *.
    destruct (isRunning app) eqn:Hrun; [discriminate|].
    unfold connect in *. rewrite Hconnect in *. cbv zeta in *.
    set (app1 := setOnvifService _ (setOnvifService _ (setOnvifService _
                   (setOnvifService _ app)))) in *.
    assert (isRunning app1 = false) as Hrun1 by (subst app1; exact Hrun).
    assert (isServiceConnected (onvifService app1) = true) as Hconn1.
    { subst app1. unfold getStreamUri, getCapabilities, getDeviceInformation.
      rewrite !onvifService_set. do 3 apply ask_stays_connected. reflexivity. }
    destruct (eventsEnabled app1); [|discriminate].
    pose proof (start_keeps_connection (listens w) (subscriptionAnswer w)
                  (unsubscribed w) (eventService app1)) as [Hcam Hconn].
    destruct (EventServiceLifecycle.start _ _ _ (eventService app1))
      as [es outcome].
    cbn [fst snd] in *. destruct outcome as [v|]; [discriminate|].
    cbn [fst]. split; [exact Hrun1|].
    unfold isServiceConnected, onvifService in *.
    cbn [eventService setEventService].
    by rewrite Hcam, Hconn. }
  repeat split; try done.
  unfold stop. by rewrite Hrun.
Qed.

Lemma failed_start_keeps_the_connection_witness :
  let w := {| connectFails := false;
              deviceInformation := Answered (Some tt);
              capabilities := Answered (Some tt);
              streamUri := Answered (Some tt);
              listens := true;
              subscriptionAnswer := Failed;
              unsubscribed := true |} in
  let app := create EventServiceLifecycle.Push None true true
               {| AlertService.enabled := false; AlertService.webhookUrl := EmptyString;
                  AlertService.timeout := 5000; AlertService.retryAttempts := 3;
                  AlertService.retryDelay := 1000;
                  AlertService.throttling := Throttle.scenarioConfig |} in
  isServiceConnected (onvifService (stop true true (fst (start w app)))) = true.
Proof.
  intros w app.
  destruct (failed_start_keeps_the_connection w true true app)
    as (_ & Hconn & Hstop); [reflexivity | reflexivity |].
  rewrite Hstop. exact Hconn.
Defined.

Lemma sendAlertBegin_keeps_enabled a now event :
  AlertService.isEnabled (fst (AlertService.sendAlertBegin a now event))
  = AlertService.isEnabled a.
Proof.
  unfold AlertService.sendAlertBegin.
  destruct (AlertService.isEnabled a) eqn:Hen; cbn [negb fst]; [|exact Hen].
  destruct (String.eqb _ _); cbn [fst]; [exact Hen|].
  destruct (if AlertService.thr_enabled _ then _ else _) as [b m'].
  destruct b; cbn [negb fst]; [|reflexivity].
  by destruct (toISOStringThrows _).
Qed.

Lemma sendAlertEnd_keeps_enabled a run event :
  AlertService.isEnabled (AlertService.sendAlertEnd a run event)
  = AlertService.isEnabled a.
Proof. unfold AlertService.sendAlertEnd. by destruct (AlertService.delivered run). Qed.

(** One event of the loop, the alert service being enabled. *)
Lemma handle_enabled {A : Type} (h : Handling) (e : HandlerEvent A) a :
  alertService (app h) = Some a -> AlertService.isAlertEnabled a = true ->
  (exists a', alertService (app (handle h e)) = Some a'
              /\ AlertService.isAlertEnabled a' = true)
  /\ isServiceConnected (onvifService (app (handle h e)))
     = isServiceConnected (onvifService (app h))
  /\ requests (onvifService (app (handle h e)))
     = (requests (onvifService (app h))
        ++ if isServiceConnected (onvifService (app h))
           then repeat cam_getDeviceInformation (invocations [e]) else [])%list.
Proof.
  intros Ha Hen. destruct e as [event deviceInfo | k now | k fetch]; cbn [handle].
  - unfold handleEventBegin. rewrite Ha, Hen. cbn [app].
    split; [by exists a|].
    unfold onvifService, setOnvifService. cbn.
    unfold getDeviceInformation, ask. rewrite ensureConnected_isServiceConnected.
    destruct (isServiceConnected
                (EventServiceLifecycle.onvifService (eventService (app h))))
      eqn:Hconn; cbn [negb fst].
    + destruct deviceInfo as [|[v|]]; cbn; by rewrite ?Hconn.
    + by rewrite Hconn, app_nil_r.
  - change (invocations [@CameraSettled A k now]) with 0%nat. cbn [repeat].
    destruct (awaitingCamera h !! k) as [event|].
    + unfold handleEventResume. rewrite Ha. cbn [app].
      split.
      * eexists. split; [reflexivity|].
        unfold AlertService.isAlertEnabled in *.
        by rewrite sendAlertBegin_keeps_enabled.
      * split; [reflexivity|]. destruct (isServiceConnected _); by rewrite app_nil_r.
    + split; [by exists a|].
      split; [reflexivity|]. destruct (isServiceConnected _); by rewrite app_nil_r.
  - change (invocations [@WebhookSettled A k fetch]) with 0%nat. cbn [repeat].
    destruct (awaitingWebhook h !! k) as [event|].
    + unfold handleEventEnd. rewrite Ha. cbn [app].
      split.
      * eexists. split; [reflexivity|].
        unfold AlertService.isAlertEnabled in *.
        by rewrite sendAlertEnd_keeps_enabled.
      * split; [reflexivity|]. destruct (isServiceConnected _); by rewrite app_nil_r.
    + split; [by exists a|].
      split; [reflexivity|]. destruct (isServiceConnected _); by rewrite app_nil_r.
Qed.

(** X29.  While the alert service is enabled, every call of
    [handleEvent] asks a connected camera for the device information, at
    the time of the call and whatever becomes of the alert: however the
    calls, the camera's answers and the deliveries interleave, the camera
    has been asked once per call, also for the events the throttle
    suppresses and when no webhook is configured, and the alert service is
    still enabled. *)
Theorem every_handled_event_asks_the_camera {A : Type} (es : list (HandlerEvent A)) :
  forall h a,
    alertService (app h) = Some a -> AlertService.isAlertEnabled a = true ->
    let h' := handleAll es h in
    requests (onvifService (app h'))
    = (requests (onvifService (app h))
       ++ if isServiceConnected (onvifService (app h))
          then repeat cam_getDeviceInformation (invocations es) else [])%list
    /\ exists a', alertService (app h') = Some a'
                  /\ AlertService.isAlertEnabled a' = true.
Proof.
  unfold handleAll. induction es as [|e es IH]; intros h a Ha Hen.
  - cbn. split; [|by exists a].
    destruct (isServiceConnected _); by rewrite app_nil_r.
  - destruct (handle_enabled h e a Ha Hen) as ((a1 & Ha1 & Hen1) & Hconn1 & Hreq1).
    destruct (IH (handle h e) a1 Ha1 Hen1) as [Hreq' Ha'].
    cbn [fold_left]. cbv zeta in Hreq'. split; [|exact Ha'].
    rewrite Hreq', Hreq1, Hconn1.
    assert (invocations (e :: es) = (invocations [e] + invocations es)%nat) as ->.
    { unfold invocations. change (e :: es) with ([e] ++ es)%list.
      by rewrite List.filter_app, length_app. }
    destruct (isServiceConnected (onvifService (app h))); [|by rewrite !app_nil_r].
    by rewrite repeat_app, app_assoc.
Qed.

Lemma every_handled_event_asks_the_camera_witness :
  let cfg := {| AlertService.enabled := true;
                AlertService.webhookUrl := "http://hooks.example/alert";
                AlertService.timeout := 5000; AlertService.retryAttempts := 3;
                AlertService.retryDelay := 1000;
                AlertService.throttling := Throttle.scenarioConfig |} in
  let h := {| app := setOnvifService (fst (connect false ONVIFService.fresh))
                       (create EventServiceLifecycle.Polling
                          (Some EventService.defaultPolling) false true cfg);
              awaitingCamera := []; awaitingWebhook := [] |} in
  let event := {| id := {| id_time := 1700000000000; id_suffix := "k3j9x0q2a" |};
                  timestamp := DateAt 1700000000000;
                  topic := "tns1:VideoSource/MotionAlarm"; source := "{}";
                  type := "motionalarm"; raw := RawXml EmptyString |} in
  let es := [ HandleEventCalled event (Answered (Some tt));
              HandleEventCalled event (Answered (Some tt));
              CameraSettled 1 1700000000500;
              CameraSettled 0 1700000001000;
              WebhookSettled 0 (fun _ => AlertService.Response 200) ] in
  requests (onvifService (app (handleAll es h)))
  = [cam_getDeviceInformation; cam_getDeviceInformation]
  /\ (AlertService.alertCounter <$> alertService (app (handleAll es h))) = Some 1.
Proof.
  intros cfg h event es.
  destruct (every_handled_event_asks_the_camera es h
              {| AlertService.config := cfg; AlertService.alertCounter := 0;
                 AlertService.isEnabled := true; AlertService.throttleMap := ∅;
                 AlertService.emitted := [] |})
    as [Hreq _]; [reflexivity | reflexivity |].
  cbv zeta in Hreq. rewrite Hreq. split; [reflexivity|].
  vm_compute. reflexivity.
Defined.

(** X30.  An application built with alerts switched off has no alert
    service, and nothing it offers creates one: whatever is called in
    whatever order, alerts stay disabled, events are passed by without a
    request to the camera, and the webhook test reports failure. *)
Theorem alerts_stay_off_unless_configured {A : Type} m polling pushConfig events
    alerts (calls : list (Call A)) fetch :
  AlertService.enabled alerts = false ->
  let app := create m polling pushConfig events alerts in
  performAll calls app = app
  /\ areAlertsEnabled (performAll calls app) = false
  /\ testAlertWebhook fetch (performAll calls app) = false.
Proof.
  intros Hoff app.
  assert (alertService app = None) as Hnone.
  { subst app. unfold create. cbn. by rewrite Hoff. }
  assert (performAll calls app = app) as ->.
  { unfold performAll. induction calls as [|c rest IH]; [reflexivity|].
    cbn [fold_left].
    assert (perform app c = app) as ->; [|exact IH].
    destruct c; cbn; unfold enableAlerts, disableAlerts, handleEvent;
      by rewrite Hnone. }
  unfold areAlertsEnabled, testAlertWebhook. by rewrite Hnone.
Qed.

Lemma alerts_stay_off_unless_configured_witness :
  let alerts := {| AlertService.enabled := false;
                   AlertService.webhookUrl := "http://hooks.example/alert";
                   AlertService.timeout := 5000; AlertService.retryAttempts := 3;
                   AlertService.retryDelay := 1000;
                   AlertService.throttling := Throttle.scenarioConfig |} in
  areAlertsEnabled
    (performAll [@CallEnableAlerts unit; CallEnableAlerts]
       (create EventServiceLifecycle.Polling (Some EventService.defaultPolling)
          false true alerts))
  = false.
Proof.
  intros alerts.
  destruct (alerts_stay_off_unless_configured EventServiceLifecycle.Polling
              (Some EventService.defaultPolling) false true alerts
              [@CallEnableAlerts unit; CallEnableAlerts]
              (fun _ => AlertService.Response 200))
    as (_ & H & _); [reflexivity|].
  exact H.
Defined.

End ApplicationFacts.
